(** * codesys-client: the NVL protocol engine

    A shallow embedding of [src/codesys-client-sender.ts] and
    [src/codesys-client-receiver.ts]: the 20-byte packet header codec, the
    send-side packetizer with its message counter, and the receive-side
    fragment assembler with its listener dispatch.

    Conventions of the embedding
    - a Node.js [Buffer] is a [list byte]; JavaScript numbers are [Z]
      (no wrap-around happens in the source: range checks are done by the
      [Buffer] write methods, which throw);
    - a JavaScript exception is the [Throw] case of [Completion];
    - the receiver's mutable fields are a record that is threaded through
      the [Eff] monad; objects that the source shares by reference (the
      [PacketBufferEntry] objects) live in an object store and are named by
      references, so that a stale local reference behaves as in the source;
    - the data type schema ([IecType] of the iec-61131-3 package) is an
      external collaborator and is taken as a record of total functions. *)

From Stdlib Require Import ZArith List Lia.
From Stdlib.Strings Require Import Byte.
From stdpp Require Import base option list gmap.

Local Open Scope Z_scope.

(** ** JavaScript completions *)

Inductive JsError : Type :=
  | RangeError   (* ERR_OUT_OF_RANGE / ERR_BUFFER_OUT_OF_BOUNDS *)
  | TypeError.   (* property access on undefined *)

Inductive Completion (A : Type) : Type :=
  | Normal (a : A)
  | Throw (e : JsError).
Arguments Normal {A} a.
Arguments Throw {A} e.

#[global] Instance Completion_ret : MRet Completion := fun A a => Normal a.
#[global] Instance Completion_bind : MBind Completion := fun A B f m =>
  match m with
  | Normal a => f a
  | Throw e => Throw e
  end.

(** ** Buffers *)

Abbreviation Buffer := (list byte).

Definition byteToZ (b : byte) : Z := Z.of_N (Byte.to_N b).

Definition byteOfZ (z : Z) : byte :=
  default x00 (Byte.of_N (Z.to_N (z mod 256))).

(** [Buffer.alloc(n)]: [n] zero bytes. The source calls it with 0, with 20
    and with a sum of buffer lengths, never with a negative size. *)
Definition Buffer_alloc (n : Z) : Buffer := replicate (Z.to_nat n) x00.

(** [buf.byteLength] *)
Definition Buffer_byteLength (b : Buffer) : Z := Z.of_nat (length b).

(** An index argument of [slice]: negative counts from the end, and the
    result is clamped to the buffer. *)
Definition clampIndex (len i : Z) : Z :=
  if i <? 0 then Z.max 0 (len + i) else Z.min i len.

(** [buf.slice(start, end)] *)
Definition slice (b : Buffer) (start end_ : Z) : Buffer :=
  let s := clampIndex (Buffer_byteLength b) start in
  let e := clampIndex (Buffer_byteLength b) end_ in
  take (Z.to_nat (e - s)) (drop (Z.to_nat s) b).

(** [buf.slice(start)] *)
Definition sliceFrom (b : Buffer) (start : Z) : Buffer :=
  slice b start (Buffer_byteLength b).

(** [src.copy(target, targetStart)] with [0 <= targetStart]: the bytes of
    [src] overwrite [target] from [targetStart] on; what does not fit is
    not copied. *)
Definition Buffer_copy (src target : Buffer) (targetStart : nat) : Buffer :=
  let room := (length target - targetStart)%nat in
  let copied := take room src in
  take targetStart target ++ copied ++ drop (targetStart + length copied) target.

(** [Buffer.concat([a, b])] *)
Definition Buffer_concat (bs : list Buffer) : Buffer := concat bs.

(** The readers throw when the bytes they need are not all inside the
    buffer. *)
Definition readUInt8 (b : Buffer) (offset : nat) : Completion Z :=
  match b !! offset with
  | Some x => Normal (byteToZ x)
  | None => Throw RangeError
  end.

Definition readUInt16LE (b : Buffer) (offset : nat) : Completion Z :=
  match b !! offset, b !! (offset + 1)%nat with
  | Some x0, Some x1 => Normal (byteToZ x0 + 256 * byteToZ x1)
  | _, _ => Throw RangeError
  end.

Definition readUInt32LE (b : Buffer) (offset : nat) : Completion Z :=
  match b !! offset, b !! (offset + 1)%nat,
        b !! (offset + 2)%nat, b !! (offset + 3)%nat with
  | Some x0, Some x1, Some x2, Some x3 =>
      Normal (byteToZ x0 + 256 * byteToZ x1
              + 65536 * byteToZ x2 + 16777216 * byteToZ x3)
  | _, _, _, _ => Throw RangeError
  end.

(** The writers throw when the value does not fit the field or the field
    is not inside the buffer. *)
Definition writeUInt8 (value : Z) (offset : nat) (b : Buffer)
  : Completion Buffer :=
  if (0 <=? value) && (value <=? 255) then
    if (offset + 1 <=? length b)%nat then
      Normal (<[offset := byteOfZ value]> b)
    else Throw RangeError
  else Throw RangeError.

Definition writeUInt16LE (value : Z) (offset : nat) (b : Buffer)
  : Completion Buffer :=
  if (0 <=? value) && (value <=? 65535) then
    if (offset + 2 <=? length b)%nat then
      Normal (<[(offset + 1)%nat := byteOfZ (value / 256)]>
                (<[offset := byteOfZ value]> b))
    else Throw RangeError
  else Throw RangeError.

Definition writeUInt32LE (value : Z) (offset : nat) (b : Buffer)
  : Completion Buffer :=
  if (0 <=? value) && (value <=? 4294967295) then
    if (offset + 4 <=? length b)%nat then
      Normal (<[(offset + 3)%nat := byteOfZ (value / 16777216)]>
               (<[(offset + 2)%nat := byteOfZ (value / 65536)]>
                 (<[(offset + 1)%nat := byteOfZ (value / 256)]>
                   (<[offset := byteOfZ value]> b))))
    else Throw RangeError
  else Throw RangeError.

(** ** types.ts

    Three interfaces of the source have a field [rawData] and two have a
    field [counter]; the projections are told apart by a prefix
    ([hdrRawData], [pktRawData], [entryCounter]). *)

Inductive HeaderFlag : Type :=
  | SendAckRequested
  | ChecksumIncluded
  | InvalidChecksum.

Record PacketHeader : Type := mkPacketHeader {
  hdrRawData : Buffer;
  identity : Buffer;
  type : Z;
  index : Z;
  subIndex : Z;
  variableCount : Z;
  packetLength : Z;
  counter : Z;
  flags : Z;
  flagsStr : list HeaderFlag;
  checksum : Z;
  payloadLength : Z
}.

(** [PacketData]; the field [parsed] is always the empty object and is
    left out. *)
Record PacketData : Type := mkPacketData {
  rawData : Buffer
}.

Record Packet : Type := mkPacket {
  header : PacketHeader;
  payload : PacketData;
  pktRawData : Buffer
}.

Record PacketBufferEntry : Type := mkPacketBufferEntry {
  handled : bool;
  entryCounter : Z;
  packets : list Packet;
  totalDataBytes : Z
}.

(** ** HeaderCodec: Receiver.parseReceivedPacketHeader *)

(** [parseHeaderFlags] *)
Definition parseHeaderFlags (flags : Z) : list HeaderFlag :=
  (if Z.land flags 1 =? 1 then [SendAckRequested] else []) ++
  (if Z.land flags 2 =? 2 then [ChecksumIncluded] else []) ++
  (if Z.land flags 4 =? 4 then [InvalidChecksum] else []).

Definition parseReceivedPacketHeader (data : Buffer)
  : Completion PacketHeader :=
  (* if (data.byteLength < 20) { TODO }: an empty branch *)
  let hdrRaw := slice data 0 20 in
  let pos := 0%nat in
  let identity_ := slice data (Z.of_nat pos) 4 in
  let pos := (pos + 4)%nat in
  type_ ← readUInt32LE data pos;
  let pos := (pos + 4)%nat in
  index_ ← readUInt16LE data pos;
  let pos := (pos + 2)%nat in
  subIndex_ ← readUInt16LE data pos;
  let pos := (pos + 2)%nat in
  variableCount_ ← readUInt16LE data pos;
  let pos := (pos + 2)%nat in
  packetLength_ ← readUInt16LE data pos;
  let pos := (pos + 2)%nat in
  counter_ ← readUInt16LE data pos;
  let pos := (pos + 2)%nat in
  flags_ ← readUInt8 data pos;
  let pos := (pos + 1)%nat in
  checksum_ ← readUInt8 data pos;
  mret {| hdrRawData := hdrRaw;
          identity := identity_;
          type := type_;
          index := index_;
          subIndex := subIndex_;
          variableCount := variableCount_;
          packetLength := packetLength_;
          counter := counter_;
          flags := flags_;
          flagsStr := parseHeaderFlags flags_;
          checksum := checksum_;
          payloadLength := packetLength_ - 20 |}.

(** ** HeaderCodec: Sender.createPacketHeader *)

Definition createPacketHeader (packet : Packet) : Completion Buffer :=
  let data := Buffer_alloc 20 in
  let pos := 0%nat in
  let data := Buffer_copy (identity (header packet)) data pos in
  let pos := (pos + 4)%nat in
  data ← writeUInt32LE (type (header packet)) pos data;
  let pos := (pos + 4)%nat in
  data ← writeUInt16LE (index (header packet)) pos data;
  let pos := (pos + 2)%nat in
  data ← writeUInt16LE (subIndex (header packet)) pos data;
  let pos := (pos + 2)%nat in
  data ← writeUInt16LE (variableCount (header packet)) pos data;
  let pos := (pos + 2)%nat in
  data ← writeUInt16LE (packetLength (header packet)) pos data;
  let pos := (pos + 2)%nat in
  data ← writeUInt16LE (counter (header packet)) pos data;
  let pos := (pos + 2)%nat in
  data ← writeUInt8 (flags (header packet)) pos data;
  let pos := (pos + 1)%nat in
  data ← writeUInt8 (checksum (header packet)) pos data;
  mret data.

(** ** The data type schema (iec-61131-3), an external collaborator *)

(** What [dataType.elementIterator()] yields: [startIndex] and
    [type.byteLength] of one leaf element. *)
Record IteratedElement : Type := mkIteratedElement {
  startIndex : Z;
  elementByteLength : Z
}.

(** A reference to a [PacketBufferEntry] object of the receiver. *)
Abbreviation Ref := nat.

Section Engine.

Context {Value : Type}.

(** [elementIterator] is the sequence of the elements that the generator
    [dataType.elementIterator()] yields. *)
Record IecType : Type := mkIecType {
  byteLength : Z;
  convertToBuffer : Value -> Buffer;
  convertFromBuffer : Buffer -> Value;
  elementIterator : list IteratedElement
}.

(** ** Sender *)

(** [SenderSettings] only concern the transport (target address and port,
    delay between packets); of the sender's fields the packetizer uses
    the counter alone. *)
Record Sender : Type := mkSender {
  targetPort : Z;
  delayBetweenPackets : Z;
  counterNumber : Z
}.

(** [new Sender()] with the default settings. *)
Definition newSender : Sender :=
  {| targetPort := 1202; delayBetweenPackets := 5; counterNumber := 0 |}.

Definition getEmptyPacket (listID counterNo : Z) : Packet :=
  {| header := {| hdrRawData := Buffer_alloc 0;
                  identity := [x00; x2d; x53; x33];
                  type := 0;
                  index := listID;
                  subIndex := 0;
                  variableCount := 0;
                  packetLength := 20;
                  counter := counterNo;
                  flags := 0;
                  flagsStr := [];
                  checksum := 0;
                  payloadLength := 0 |};
     payload := {| rawData := Buffer_alloc 0 |};
     pktRawData := Buffer_alloc 0 |}.

(** [next.header.subIndex = ...] *)
Definition withSubIndex (p : Packet) (i : Z) : Packet :=
  let h := header p in
  {| header := {| hdrRawData := hdrRawData h; identity := identity h;
                  type := type h; index := index h; subIndex := i;
                  variableCount := variableCount h;
                  packetLength := packetLength h; counter := counter h;
                  flags := flags h; flagsStr := flagsStr h;
                  checksum := checksum h;
                  payloadLength := payloadLength h |};
     payload := payload p;
     pktRawData := pktRawData p |}.

(** The three header updates and the payload update of one loop round:
    [variableCount++], [payloadLength += n], [packetLength += n],
    [payload.rawData = Buffer.concat([payload.rawData, bytes])]. *)
Definition withElement (p : Packet) (n : Z) (bytes : Buffer) : Packet :=
  let h := header p in
  {| header := {| hdrRawData := hdrRawData h; identity := identity h;
                  type := type h; index := index h; subIndex := subIndex h;
                  variableCount := variableCount h + 1;
                  packetLength := packetLength h + n; counter := counter h;
                  flags := flags h; flagsStr := flagsStr h;
                  checksum := checksum h;
                  payloadLength := payloadLength h + n |};
     payload := {| rawData := Buffer_concat [rawData (payload p); bytes] |};
     pktRawData := pktRawData p |}.

(** One round of the loop of [send] over the elements; the state is the
    list [packets] and the current [packet]. *)
Definition addElement (listID counterNo : Z) (raw : Buffer)
    (st : list Packet * Packet) (element : IteratedElement)
  : list Packet * Packet :=
  let '(packets, packet) := st in
  let '(packets, packet) :=
    if payloadLength (header packet) + elementByteLength element >? 256 then
      let next := getEmptyPacket listID counterNo in
      let next := withSubIndex next (subIndex (header packet) + 1) in
      (packets ++ [packet], next)
    else (packets, packet) in
  let elementRawData :=
    slice raw (startIndex element)
          (startIndex element + elementByteLength element) in
  (packets, withElement packet (elementByteLength element) elementRawData).

(** The packetizer: the loop and the final [packets.push(packet)]. *)
Definition splitToPackets (listID counterNo : Z) (raw : Buffer)
    (elements : list IteratedElement) : list Packet :=
  let '(packets, packet) :=
    foldl (addElement listID counterNo raw)
          ([], getEmptyPacket listID counterNo) elements in
  packets ++ [packet].

(** The body of [packets.forEach(p => ...)]: the raw header and the raw
    packet. *)
Definition withRawData (p : Packet) : Completion Packet :=
  hdr ← createPacketHeader p;
  let h := header p in
  mret {| header := {| hdrRawData := hdr; identity := identity h;
                       type := type h; index := index h;
                       subIndex := subIndex h;
                       variableCount := variableCount h;
                       packetLength := packetLength h; counter := counter h;
                       flags := flags h; flagsStr := flagsStr h;
                       checksum := checksum h;
                       payloadLength := payloadLength h |};
          payload := payload p;
          pktRawData := Buffer_concat [hdr; rawData (payload p)] |}.

(** The counter step at the head of [send]:
    [if (this.counterNumber >= 65535) this.counterNumber = 0;
     const counterNo = this.counterNumber++]. *)
Definition nextCounter (s : Sender) : Z * Sender :=
  let n := if counterNumber s >=? 65535 then 0 else counterNumber s in
  (n, {| targetPort := targetPort s;
         delayBetweenPackets := delayBetweenPackets s;
         counterNumber := n + 1 |}).

(** [send], up to the packets that are handed to the UDP socket, in the
    order of transmission. *)
Definition send (listID : Z) (dataType : IecType) (data : Value)
    (s : Sender) : Completion (list Packet) * Sender :=
  let raw := convertToBuffer dataType data in
  let '(counterNo, s) := nextCounter s in
  let packets :=
    splitToPackets listID counterNo raw (elementIterator dataType) in
  (mapM withRawData packets, s).

(** ** Receiver *)

(** The user's callback is a function of the caller; a listener carries
    its name, and calling it is the effect [CallbackInvoked]. What the
    callback does with the data is outside the receiver. *)
Record Listener : Type := mkListener {
  listID : Z;
  dataType : IecType;
  callback : nat
}.

(** Effects that leave the receiver. *)
Inductive Event : Type :=
  | SocketCreated
  | SocketBound
  | SocketClosed
  | CallbackInvoked (listener : Listener) (data : Value).

(** The UDP socket object: whether the data listener of [listen] has been
    attached to its 'message' event. *)
Record Socket : Type := mkSocket {
  messageListener : bool
}.

(** The receiver's fields [socket], [packetBuffer] and [handlers];
    [packetBuffer] maps a list ID to a reference, and [objects] holds the
    entry objects ([nextRef] is the next unused reference). *)
Record Receiver : Type := mkReceiver {
  ListeningPort : Z;
  socket : option Socket;
  packetBuffer : gmap Z Ref;
  handlers : list Listener;
  objects : gmap Ref PacketBufferEntry;
  nextRef : Ref
}.

(** [new Receiver()] with the default settings. *)
Definition newReceiver : Receiver :=
  {| ListeningPort := 1202; socket := None; packetBuffer := ∅;
     handlers := []; objects := ∅; nextRef := 0%nat |}.

(** The entry that [this.packetBuffer[index]] refers to. *)
Definition bufferEntry (r : Receiver) (idx : Z) : option PacketBufferEntry :=
  ref ← packetBuffer r !! idx; objects r !! ref.

(** *** The monad of the receive path: receiver state, the effects so far,
    exceptions *)

Definition Eff (A : Type) : Type :=
  Receiver -> list Event -> Completion A * Receiver * list Event.

#[global] Instance Eff_ret : MRet Eff := fun A a r log => (Normal a, r, log).
#[global] Instance Eff_bind : MBind Eff := fun A B f m r log =>
  let '(c, r1, log1) := m r log in
  match c with
  | Normal a => f a r1 log1
  | Throw e => (Throw e, r1, log1)
  end.

Definition throw {A : Type} (e : JsError) : Eff A :=
  fun r log => (Throw e, r, log).

Definition emit (ev : Event) : Eff unit :=
  fun r log => (Normal tt, r, log ++ [ev]).

(** [this.handlers] *)
Definition getHandlers : Eff (list Listener) :=
  fun r log => (Normal (handlers r), r, log).

(** [this.packetBuffer[idx]] *)
Definition getPacketBuffer (idx : Z) : Eff (option Ref) :=
  fun r log => (Normal (packetBuffer r !! idx), r, log).

Definition withPacketBuffer (r : Receiver) (m : gmap Z Ref) : Receiver :=
  {| ListeningPort := ListeningPort r; socket := socket r;
     packetBuffer := m; handlers := handlers r;
     objects := objects r; nextRef := nextRef r |}.

Definition withObjects (r : Receiver) (o : gmap Ref PacketBufferEntry)
    (n : Ref) : Receiver :=
  {| ListeningPort := ListeningPort r; socket := socket r;
     packetBuffer := packetBuffer r; handlers := handlers r;
     objects := o; nextRef := n |}.

(** [delete this.packetBuffer[idx]] *)
Definition deletePacketBuffer (idx : Z) : Eff unit :=
  fun r log =>
    (Normal tt, withPacketBuffer r (delete idx (packetBuffer r)), log).

(** [this.packetBuffer[idx] = ref] *)
Definition setPacketBuffer (idx : Z) (ref : Ref) : Eff unit :=
  fun r log =>
    (Normal tt, withPacketBuffer r (<[idx := ref]> (packetBuffer r)), log).

(** An object literal: a new object. *)
Definition newObject (e : PacketBufferEntry) : Eff Ref :=
  fun r log =>
    (Normal (nextRef r),
     withObjects r (<[nextRef r := e]> (objects r)) (S (nextRef r)),
     log).

(** Reading the fields of the object behind a reference. *)
Definition readObject (ref : Ref) : Eff PacketBufferEntry :=
  fun r log => match objects r !! ref with
               | Some e => (Normal e, r, log)
               | None => (Throw TypeError, r, log)
               end.

(** Assigning fields of the object behind a reference. *)
Definition writeObject (ref : Ref) (e : PacketBufferEntry) : Eff unit :=
  fun r log =>
    (Normal tt, withObjects r (<[ref := e]> (objects r)) (nextRef r), log).

(** [for (const x of xs) body(x)] *)
Fixpoint forEach {A : Type} (xs : list A) (body : A -> Eff unit) : Eff unit :=
  match xs with
  | [] => mret tt
  | x :: xs' => body x;; forEach xs' body
  end.

(** *** convertBufferEntriesToPacket *)

Definition convertBufferEntriesToPacket (buffer : PacketBufferEntry) : Buffer :=
  let data := Buffer_alloc (totalDataBytes buffer) in
  let pos := 0%nat in
  fst (foldl (fun '(data, pos) packet =>
                (Buffer_copy (rawData (payload packet)) data pos,
                 (pos + length (rawData (payload packet)))%nat))
             (data, pos) (packets buffer)).

(** *** checkReceivedPacket *)

Definition withHandled (e : PacketBufferEntry) (b : bool) : PacketBufferEntry :=
  {| handled := b; entryCounter := entryCounter e;
     packets := packets e; totalDataBytes := totalDataBytes e |}.

Definition checkReceivedPacket (idx : Z) (buffer : Ref) : Eff unit :=
  hs ← getHandlers;
  let listeners := List.filter (fun listener => listID listener =? idx) hs in
  match listeners with
  | first :: _ =>
      e ← readObject buffer;
      if byteLength (dataType first) =? totalDataBytes e then
        let data := convertBufferEntriesToPacket e in
        forEach listeners (fun listener =>
          emit (CallbackInvoked listener
                  (convertFromBuffer (dataType listener) data)));;
        e ← readObject buffer;
        writeObject buffer (withHandled e true)
      else if byteLength (dataType first) >? totalDataBytes e then
        mret tt   (* not enough data yet *)
      else
        mret tt   (* more data than expected: only a debug message *)
  | [] =>
      deletePacketBuffer idx
  end.

(** *** handleReceivedPacket *)

(** [buffer.packets.push(packet); buffer.totalDataBytes += n] *)
Definition withPacket (e : PacketBufferEntry) (packet : Packet) : PacketBufferEntry :=
  {| handled := handled e; entryCounter := entryCounter e;
     packets := packets e ++ [packet];
     totalDataBytes :=
       totalDataBytes e + Buffer_byteLength (rawData (payload packet)) |}.

(** [buffer.packets[buffer.packets.length - 1]]; a property of [undefined]
    is read next when there is none. *)
Definition lastPacket (e : PacketBufferEntry) : Eff Packet :=
  match last (packets e) with
  | Some p => mret p
  | None => throw TypeError
  end.

(** The first branch of [handleReceivedPacket]: the entry has the counter
    of the packet. *)
Definition continueBuffer (packet : Packet) (buffer : Ref) : Eff (option Ref) :=
  e ← readObject buffer;
  lastp ← lastPacket e;
  if subIndex (header packet) =? subIndex (header lastp) + 1 then
    writeObject buffer (withPacket e packet);;
    mret (Some buffer)
  else
    deletePacketBuffer (index (header packet));;
    mret None.

(** The second branch: nothing in the buffer for this list, or another
    counter. [buffer] is the local variable of the source, which keeps
    referring to the old entry where the source does not assign it. *)
Definition restartBuffer (packet : Packet) (buffer : option Ref)
  : Eff (option Ref) :=
  match buffer with
  | Some ref =>
      e ← readObject ref;
      if negb (handled e) then deletePacketBuffer (index (header packet))
      else mret tt
  | None => mret tt
  end;;
  if subIndex (header packet) =? 0 then
    ref ← newObject {| handled := false;
                       entryCounter := counter (header packet);
                       packets := [packet];
                       totalDataBytes :=
                         Buffer_byteLength (rawData (payload packet)) |};
    setPacketBuffer (index (header packet)) ref;;
    getPacketBuffer (index (header packet))
  else
    mret buffer.

(** [handleReceivedPacket] up to the final [if (buffer)]: the value of the
    local variable [buffer] at that point. *)
Definition ingestFragment (packet : Packet) : Eff (option Ref) :=
  buffer ← getPacketBuffer (index (header packet));
  match buffer with
  | Some ref =>
      e ← readObject ref;
      if entryCounter e =? counter (header packet)
      then continueBuffer packet ref
      else restartBuffer packet buffer
  | None => restartBuffer packet buffer
  end.

Definition handleReceivedPacket (packet : Packet) : Eff unit :=
  buffer ← ingestFragment packet;
  match buffer with
  | Some ref => checkReceivedPacket (index (header packet)) ref
  | None => mret tt
  end.

(** *** parseReceivedPacket, handleReceivedData *)

(** The packet object that [parseReceivedPacket] builds. *)
Definition parsePacket (data : Buffer) : Completion Packet :=
  h ← parseReceivedPacketHeader data;
  mret {| header := h;
          payload := {| rawData :=
                          sliceFrom data (Buffer_byteLength (hdrRawData h)) |};
          pktRawData := data |}.

Definition parseReceivedPacket (data : Buffer) : Eff unit :=
  match parsePacket data with
  | Normal packet => handleReceivedPacket packet
  | Throw e => throw e
  end.

Definition handleReceivedData (data : Buffer) : Eff unit :=
  parseReceivedPacket data.

(** *** The socket's 'message' event

    Node.js calls the listener once per datagram, in the order of arrival.
    An exception that leaves the listener is an uncaught exception: the
    source installs no handler for it, and the process ends. *)
Inductive Process : Type :=
  | Running (r : Receiver)
  | Crashed (e : JsError) (r : Receiver).

Fixpoint receiveLoop (datagrams : list Buffer) (r : Receiver)
    (log : list Event) : Process * list Event :=
  match datagrams with
  | [] => (Running r, log)
  | data :: rest =>
      let '(c, r1, log1) := handleReceivedData data r log in
      match c with
      | Normal _ => receiveLoop rest r1 log1
      | Throw e => (Crashed e r1, log1)
      end
  end.

(** *** addHandler, removeAllHandlers *)

Definition withHandlers (r : Receiver) (hs : list Listener) : Receiver :=
  {| ListeningPort := ListeningPort r; socket := socket r;
     packetBuffer := packetBuffer r; handlers := hs;
     objects := objects r; nextRef := nextRef r |}.

Definition addHandler (id : Z) (ty : IecType) (cb : nat) (r : Receiver)
  : Listener * Receiver :=
  let handler := {| listID := id; dataType := ty; callback := cb |} in
  (handler, withHandlers r (handlers r ++ [handler])).

Definition removeAllHandlers (r : Receiver) : Receiver := withHandlers r [].

(** *** listen, close *)

(** What the host platform does with [socket.bind]: it calls back, it
    emits 'error', or it throws. *)
Inductive BindOutcome : Type :=
  | BindSucceeds
  | BindEmitsError
  | BindThrows.

Inductive RejectReason : Type :=
  | AlreadyConnected   (* Failed to start listening - there is already a connection *)
  | BindingFailed.     (* Binding to UDP port ... failed *)

Inductive ListenResult : Type :=
  | Resolved
  | Rejected (reason : RejectReason).

Definition withSocket (r : Receiver) (s : option Socket) : Receiver :=
  {| ListeningPort := ListeningPort r; socket := s;
     packetBuffer := packetBuffer r; handlers := handlers r;
     objects := objects r; nextRef := nextRef r |}.

Definition listen (env : BindOutcome) (r : Receiver)
  : ListenResult * Receiver * list Event :=
  match socket r with
  | Some _ => (Rejected AlreadyConnected, r, [])
  | None =>
      let r := withSocket r (Some {| messageListener := false |}) in
      match env with
      | BindSucceeds =>
          (Resolved, withSocket r (Some {| messageListener := true |}),
           [SocketCreated; SocketBound])
      | BindEmitsError => (Rejected BindingFailed, r, [SocketCreated])
      | BindThrows => (Rejected BindingFailed, r, [SocketCreated])
      end
  end.

(** [close]: in every branch [cleanup] runs. *)
Definition close (r : Receiver) : Receiver * list Event :=
  let cleanup r :=
    withPacketBuffer (withHandlers (withSocket r None) []) ∅ in
  match socket r with
  | None => (cleanup r, [])
  | Some _ => (cleanup r, [SocketClosed])
  end.

End Engine.

Arguments IecType : clear implicits.
Arguments Listener : clear implicits.
Arguments Event : clear implicits.
Arguments Receiver : clear implicits.
Arguments Process : clear implicits.
Arguments Eff : clear implicits.

(** ** Vocabulary of the statements *)

Section Vocabulary.

Context {Value : Type}.

(** The listeners of a list: [this.handlers.filter(...)]. *)
Definition listenersFor (r : Receiver Value) (idx : Z)
  : list (Listener Value) :=
  List.filter (fun listener => listID listener =? idx) (handlers r).

(** The callback invocations for [data], one per listener, in order. *)
Definition callbacks (ls : list (Listener Value)) (data : Buffer)
  : list (Event Value) :=
  map (fun l => CallbackInvoked l (convertFromBuffer (dataType l) data)) ls.

Definition payloads (ps : list Packet) : list Buffer :=
  map (fun p => rawData (payload p)) ps.

Definition subIndexes (ps : list Packet) : list Z :=
  map (fun p => subIndex (header p)) ps.

(** The invariant of a [PacketBufferEntry]: at least one fragment, the
    sub-indexes count up from 0, and [totalDataBytes] is the sum of the
    payload lengths. *)
Definition entry_wf (e : PacketBufferEntry) : Prop :=
  packets e <> [] /\
  subIndexes (packets e) = seqZ 0 (Z.of_nat (length (packets e))) /\
  totalDataBytes e = Buffer_byteLength (concat (payloads (packets e))).

(** The invariant of the receiver: every entry object is well formed and
    older than [nextRef], and every reference of [packetBuffer] names an
    object. *)
Definition receiver_wf (r : Receiver Value) : Prop :=
  (forall ref e, objects r !! ref = Some e ->
                 entry_wf e /\ (ref < nextRef r)%nat) /\
  (forall idx ref, packetBuffer r !! idx = Some ref ->
                   is_Some (objects r !! ref)).

(** The entry that a first fragment starts. *)
Definition freshEntry (packet : Packet) : PacketBufferEntry :=
  {| handled := false;
     entryCounter := counter (header packet);
     packets := [packet];
     totalDataBytes := Buffer_byteLength (rawData (payload packet)) |}.

(** The receiver after a first fragment has started a new entry. *)
Definition startEntry (r : Receiver Value) (packet : Packet)
  : Receiver Value :=
  withPacketBuffer
    (withObjects r (<[nextRef r := freshEntry packet]> (objects r))
                 (S (nextRef r)))
    (<[index (header packet) := nextRef r]> (packetBuffer r)).

(** The receiver after the entry object [ref] has been assigned [e]. *)
Definition storeEntry (r : Receiver Value) (ref : Ref)
    (e : PacketBufferEntry) : Receiver Value :=
  withObjects r (<[ref := e]> (objects r)) (nextRef r).

(** The receiver after [delete this.packetBuffer[idx]]. *)
Definition dropEntry (r : Receiver Value) (idx : Z) : Receiver Value :=
  withPacketBuffer r (delete idx (packetBuffer r)).

(** The list [idx] has no entry, or an entry of counter [c] whose last
    fragment has sub-index [k]. *)
Definition tailAt (r : Receiver Value) (idx c k : Z) : Prop :=
  packetBuffer r !! idx = None \/
  exists ref e lastp,
    packetBuffer r !! idx = Some ref /\ objects r !! ref = Some e /\
    entryCounter e = c /\ last (packets e) = Some lastp /\
    subIndex (header lastp) = k.

(** [q] continues [p]: the same sub-index, and the payload of [p] with
    more bytes behind it. *)
Definition continues (p q : Packet) : Prop :=
  subIndex (header q) = subIndex (header p) /\
  exists more, rawData (payload q) = rawData (payload p) ++ more.

(** The bytes of one element: [rawData.slice(startIndex, startIndex +
    type.byteLength)]. *)
Definition elementBytes (raw : Buffer) (element : IteratedElement) : Buffer :=
  slice raw (startIndex element)
        (startIndex element + elementByteLength element).

(** The value of [counterNumber] after [n] calls of [send] on a new
    sender. *)
Definition counterAfter (n : Z) : Z :=
  if n =? 0 then 0 else (n - 1) mod 65535 + 1.

(** The field descriptors tile the bytes from [pos] to [len] contiguously
    and in order. *)
Fixpoint tiling (pos : Z) (elements : list IteratedElement) (len : Z)
  : Prop :=
  match elements with
  | [] => pos = len
  | e :: rest =>
      startIndex e = pos /\ 0 <= elementByteLength e /\
      tiling (pos + elementByteLength e) rest len
  end.

(** A sequence of [send] calls on one sender. *)
Definition sendMany (requests : list (Z * IecType Value * Value))
    (s : Sender) : Sender :=
  foldl (fun s '(listID, dataType, data) => snd (send listID dataType data s))
        s requests.

End Vocabulary.

(** ** Concrete schemas, packets and datagrams of the examples

    In the examples a structured value is its raw buffer. *)

(** A schema of [n] bytes whose leaf elements are [els]. *)
Definition rawType (n : Z) (els : list IteratedElement) : IecType Buffer :=
  {| byteLength := n;
     convertToBuffer := fun b => b;
     convertFromBuffer := fun b => b;
     elementIterator := els |}.

(** The header of an empty packet for list 50 with flags 1 and checksum 2. *)
Definition flaggedPacket : Packet :=
  {| header := {| hdrRawData := []; identity := [x00; x2d; x53; x33];
                  type := 0; index := 50; subIndex := 0; variableCount := 0;
                  packetLength := 20; counter := 5; flags := 1;
                  flagsStr := []; checksum := 2; payloadLength := 0 |};
     payload := {| rawData := [] |};
     pktRawData := [] |}.

(** The twenty header bytes of a datagram for list 50: sub-index [sub],
    packet length field [len], counter [cnt], flags 0, checksum 0. *)
Definition headerBytes (sub len cnt : byte) : Buffer :=
  [x00; x2d; x53; x33;  x00; x00; x00; x00;  x32; x00;  sub; x00;
   x01; x00;  len; x00;  cnt; x00;  x00;  x00].

(** A datagram of 23 bytes: flags 1 at offset 18, checksum 2 at offset 19,
    and the payload 3, 4, 5 from offset 20 on. *)
Definition flaggedDatagram : Buffer :=
  [x00; x2d; x53; x33;  x00; x00; x00; x00;  x32; x00;  x00; x00;
   x01; x00;  x17; x00;  x05; x00;  x01;  x02;  x03; x04; x05].

(** A datagram of ten bytes. *)
Definition shortDatagram : Buffer :=
  [x00; x2d; x53; x33;  x00; x00; x00; x00;  x32; x00].

(** The twenty bytes that [createPacketHeader] returns for
    [flaggedPacket]. *)
Definition flaggedPacketBytes : Buffer :=
  [x00; x2d; x53; x33;  x00; x00; x00; x00;  x32; x00;  x00; x00;
   x00; x00;  x14; x00;  x05; x00;  x01;  x02].

(** The header that [parseReceivedPacketHeader] returns for
    [flaggedDatagram]. *)
Definition flaggedDatagramHeader : PacketHeader :=
  {| hdrRawData :=
       [x00; x2d; x53; x33;  x00; x00; x00; x00;  x32; x00;  x00; x00;
        x01; x00;  x17; x00;  x05; x00;  x01;  x02];
     identity := [x00; x2d; x53; x33];
     type := 0; index := 50; subIndex := 0; variableCount := 1;
     packetLength := 23; counter := 5; flags := 1;
     flagsStr := [SendAckRequested]; checksum := 2; payloadLength := 3 |}.

(** A receiver with one listener of four bytes for list 50. *)
Definition receiver50 : Receiver Buffer :=
  snd (addHandler 50 (rawType 4 []) 7 newReceiver).

(** The listener of [receiver50]. *)
Definition listener50 : Listener Buffer :=
  {| listID := 50; dataType := rawType 4 []; callback := 7 |}.

(** A complete message of four bytes for list 50 with counter 5. *)
Definition firstDatagram : Buffer :=
  headerBytes x00 x18 x05 ++ [x0a; x0b; x0c; x0d].

(** A fragment for list 50 as the receiver holds it after parsing. *)
Definition fragment (sub cnt : Z) (bytes : Buffer) : Packet :=
  {| header := {| hdrRawData := []; identity := [x00; x2d; x53; x33];
                  type := 0; index := 50; subIndex := sub;
                  variableCount := 1;
                  packetLength := 20 + Buffer_byteLength bytes;
                  counter := cnt; flags := 0; flagsStr := [];
                  checksum := 0;
                  payloadLength := Buffer_byteLength bytes |};
     payload := {| rawData := bytes |};
     pktRawData := [] |}.

(** The second fragment of a next message (sub-index 1, counter 6), whose
    first fragment was lost. *)
Definition strayDatagram : Buffer :=
  headerBytes x01 x15 x06 ++ [x63].


(** [receiver50] after a successful [listen]. *)
Definition listeningReceiver : Receiver Buffer :=
  snd (fst (listen BindSucceeds receiver50)).




(** [receiver50] after [firstDatagram] has been received. *)
Definition receiverAfterFirst : Receiver Buffer :=
  match fst (receiveLoop [firstDatagram] receiver50 []) with
  | Running r => r
  | Crashed _ r => r
  end.

(** A fragment without payload that continues the message of
    [firstDatagram] (sub-index 1, counter 5). *)
Definition emptyContinuation : Buffer :=
  headerBytes x01 x14 x05.

(** A schema without elements, and a request to send its empty value to
    list 1. *)
Definition emptyRequest : Z * IecType Buffer * Buffer :=
  (1, rawType 0 [], []).

(** A message of 300 bytes of two fields, of 256 and of 44 bytes. *)
Definition message300 : Buffer := replicate 256 x11 ++ replicate 44 x22.

Definition fieldsOf300 : list IteratedElement :=
  [ {| startIndex := 0; elementByteLength := 256 |};
    {| startIndex := 256; elementByteLength := 44 |} ].

(** One field of 300 bytes. *)
Definition oversizedField : IteratedElement :=
  {| startIndex := 0; elementByteLength := 300 |}.

(** ** Vocabulary of the further properties *)

(** Every field of the header fits the width that [createPacketHeader]
    writes it with. *)
Definition header_in_range (h : PacketHeader) : Prop :=
  0 <= type h <= 4294967295 /\
  0 <= index h <= 65535 /\
  0 <= subIndex h <= 65535 /\
  0 <= variableCount h <= 65535 /\
  0 <= packetLength h <= 65535 /\
  0 <= counter h <= 65535 /\
  0 <= flags h <= 255 /\
  0 <= checksum h <= 255.

(** A packet object around a header, as the receiver builds it. *)
Definition packetOfHeader (h : PacketHeader) (bytes raw : Buffer) : Packet :=
  {| header := h; payload := {| rawData := bytes |}; pktRawData := raw |}.

Section MoreVocabulary.

Context {Value : Type}.

(** No two lists share an entry object. *)
Definition separated (r : Receiver Value) : Prop :=
  forall i j ref,
    packetBuffer r !! i = Some ref -> packetBuffer r !! j = Some ref ->
    i = j.

(** The entry object [ref] is reachable from the list [idx] alone. *)
Definition owns (r : Receiver Value) (idx : Z) (ref : Ref) : Prop :=
  forall i, packetBuffer r !! i = Some ref -> i = idx.

(** What one call of [handleReceivedPacket] for the list [idx] does to the
    receiver, as a sequence of its three updates: [delete
    this.packetBuffer[idx]], a new entry for a first fragment of [idx], and
    an assignment to the fields of an entry object of [idx]. *)
Inductive evolves (idx : Z) (r : Receiver Value) : Receiver Value -> Prop :=
  | evolves_refl : evolves idx r r
  | evolves_drop r1 :
      evolves idx r r1 -> evolves idx r (dropEntry r1 idx)
  | evolves_start r1 packet :
      evolves idx r r1 ->
      index (header packet) = idx -> subIndex (header packet) = 0 ->
      evolves idx r (startEntry r1 packet)
  | evolves_store r1 ref e0 e :
      evolves idx r r1 ->
      objects r1 !! ref = Some e0 -> owns r1 idx ref -> entry_wf e ->
      evolves idx r (storeEntry r1 ref e).

End MoreVocabulary.

(** A fragment for list 60. *)
Definition fragment60 (sub cnt : Z) (bytes : Buffer) : Packet :=
  {| header := {| hdrRawData := []; identity := [x00; x2d; x53; x33];
                  type := 0; index := 60; subIndex := sub;
                  variableCount := 1;
                  packetLength := 20 + Buffer_byteLength bytes;
                  counter := cnt; flags := 0; flagsStr := [];
                  checksum := 0;
                  payloadLength := Buffer_byteLength bytes |};
     payload := {| rawData := bytes |};
     pktRawData := [] |}.

(** [receiver50] while list 50 accumulates: one fragment of two bytes. *)
Definition receiverAccumulating : Receiver Buffer :=
  startEntry receiver50 (fragment 0 5 [x0a; x0b]).

(** The sum of the variable counts of the packets. *)
Definition variableTotal (ps : list Packet) : Z :=
  foldr (fun p n => variableCount (header p) + n) 0 ps.

(** The header of a packet describes its payload: [payloadLength] is the
    length of the payload and [packetLength] is twenty more. *)
Definition lengths_agree (p : Packet) : Prop :=
  payloadLength (header p) = Buffer_byteLength (rawData (payload p)) /\
  packetLength (header p) = 20 + payloadLength (header p).




(** * Properties *)

(** ** Bytes and buffers *)

Lemma byteToZ_range (b : byte) : 0 <= byteToZ b < 256.
Proof.
  unfold byteToZ. pose proof (Byte.to_N_bounded b) as Hb. lia.
Qed.

Lemma byteToZ_byteOfZ (z : Z) : 0 <= z < 256 -> byteToZ (byteOfZ z) = z.
Proof.
  intros Hz. unfold byteToZ, byteOfZ.
  rewrite Z.mod_small by lia.
  destruct (Byte.of_N (Z.to_N z)) as [b|] eqn:Hof; simpl.
  - apply Byte.to_of_N in Hof. rewrite Hof. lia.
  - apply Byte.of_N_None_iff in Hof. lia.
Qed.

Lemma Buffer_copy_length (src target : Buffer) (pos : nat) :
  length (Buffer_copy src target pos) = length target.
Proof.
  unfold Buffer_copy.
  rewrite !length_app, !length_take, length_drop. lia.
Qed.

Lemma bind_Normal {A B : Type} (m : Completion A) (f : A -> Completion B)
    (b : B) :
  m ≫= f = Normal b -> exists a, m = Normal a /\ f a = Normal b.
Proof.
  destruct m as [a|e]; cbn; [eauto | discriminate].
Qed.

Lemma readUInt8_Normal (b : Buffer) (off : nat) (v : Z) :
  readUInt8 b off = Normal v ->
  exists x, b !! off = Some x /\ v = byteToZ x.
Proof.
  unfold readUInt8. destruct (b !! off) as [x|]; [|discriminate].
  intros [= <-]. eauto.
Qed.

Lemma readUInt8_short (b : Buffer) (off : nat) :
  (length b <= off)%nat -> readUInt8 b off = Throw RangeError.
Proof.
  intros Hlen. unfold readUInt8. by rewrite lookup_ge_None_2.
Qed.

(** What a successful write leaves in the buffer. *)
Lemma writeUInt8_Normal (v : Z) (off : nat) (b b' : Buffer) :
  writeUInt8 v off b = Normal b' ->
  0 <= v <= 255 /\ length b' = length b /\
  b' !! off = Some (byteOfZ v) /\
  (forall i, i <> off -> b' !! i = b !! i).
Proof.
  unfold writeUInt8.
  destruct ((0 <=? v) && (v <=? 255)) eqn:Hv; [|discriminate].
  destruct (off + 1 <=? length b)%nat eqn:Hoff; [|discriminate].
  intros [= <-]. apply andb_true_iff in Hv as [H0 H1].
  apply Nat.leb_le in Hoff.
  repeat split; try lia.
  - by rewrite length_insert.
  - apply list_lookup_insert_eq. lia.
  - intros i Hi. by apply list_lookup_insert_ne.
Qed.

Lemma writeUInt16LE_Normal (v : Z) (off : nat) (b b' : Buffer) :
  writeUInt16LE v off b = Normal b' ->
  length b' = length b /\
  (forall i, (i < off \/ off + 1 < i)%nat -> b' !! i = b !! i).
Proof.
  unfold writeUInt16LE.
  destruct ((0 <=? v) && (v <=? 65535)); [|discriminate].
  destruct (off + 2 <=? length b)%nat; [|discriminate].
  intros [= <-]. split.
  - by rewrite !length_insert.
  - intros i Hi. rewrite !list_lookup_insert_ne by lia. done.
Qed.

Lemma writeUInt32LE_Normal (v : Z) (off : nat) (b b' : Buffer) :
  writeUInt32LE v off b = Normal b' ->
  length b' = length b /\
  (forall i, (i < off \/ off + 3 < i)%nat -> b' !! i = b !! i).
Proof.
  unfold writeUInt32LE.
  destruct ((0 <=? v) && (v <=? 4294967295)); [|discriminate].
  destruct (off + 4 <=? length b)%nat; [|discriminate].
  intros [= <-]. split.
  - by rewrite !length_insert.
  - intros i Hi. rewrite !list_lookup_insert_ne by lia. done.
Qed.

(** ** The header codec *)

(** The encoder returns twenty bytes, with the flags at offset 18 and the
    checksum at offset 19. *)
Lemma createPacketHeader_Normal (packet : Packet) (d : Buffer) :
  createPacketHeader packet = Normal d ->
  length d = 20%nat /\
  0 <= flags (header packet) <= 255 /\
  0 <= checksum (header packet) <= 255 /\
  d !! 18%nat = Some (byteOfZ (flags (header packet))) /\
  d !! 19%nat = Some (byteOfZ (checksum (header packet))).
Proof.
  unfold createPacketHeader. intros H.
  repeat (apply bind_Normal in H as [? [?Hw H]]).
  cbn in H. injection H as ->.
  apply writeUInt32LE_Normal in Hw as [L1 _].
  apply writeUInt16LE_Normal in Hw0 as [L2 _].
  apply writeUInt16LE_Normal in Hw1 as [L3 _].
  apply writeUInt16LE_Normal in Hw2 as [L4 _].
  apply writeUInt16LE_Normal in Hw3 as [L5 _].
  apply writeUInt16LE_Normal in Hw4 as [L6 _].
  apply writeUInt8_Normal in Hw5 as (Rf & L7 & Gf & _).
  apply writeUInt8_Normal in Hw6 as (Rc & L8 & Gc & Kc).
  rewrite Buffer_copy_length in L1.
  change (length (Buffer_alloc 20)) with 20%nat in L1. cbn in Gf, Gc, Kc.
  repeat split; try lia; try congruence.
  rewrite Kc by lia. exact Gf.
Qed.

(** The decoder takes the flags from offset 18 and the checksum from
    offset 19. *)
Lemma parseReceivedPacketHeader_Normal (data : Buffer) (h : PacketHeader) :
  parseReceivedPacketHeader data = Normal h ->
  exists f c : byte,
    data !! 18%nat = Some f /\ data !! 19%nat = Some c /\
    flags h = byteToZ f /\ checksum h = byteToZ c /\
    hdrRawData h = slice data 0 20 /\
    payloadLength h = packetLength h - 20.
Proof.
  unfold parseReceivedPacketHeader. intros H.
  repeat (apply bind_Normal in H as [? [?Hr H]]).
  cbn in H. injection H as <-.
  apply readUInt8_Normal in Hr5 as (f & Hf & ->).
  apply readUInt8_Normal in Hr6 as (c & Hc & ->).
  exists f, c. cbn. done.
Qed.

Lemma parseReceivedPacketHeader_total (data : Buffer) :
  (20 <= length data)%nat ->
  exists h, parseReceivedPacketHeader data = Normal h.
Proof.
  intros Hlen.
  do 20 (destruct data as [|? data]; [cbn in Hlen; lia|]).
  eexists. reflexivity.
Qed.

(** Every datagram of fewer than twenty bytes makes one of the readers
    throw: the last read, of the byte at offset 19, needs twenty bytes. *)
Lemma parseReceivedPacketHeader_short (data : Buffer) :
  (length data < 20)%nat ->
  parseReceivedPacketHeader data = Throw RangeError.
Proof.
  intros Hlen.
  do 20 (destruct data as [|? data]; [reflexivity|]).
  cbn in Hlen. lia.
Qed.

(** C4 (amended): the packet header is twenty bytes, offsets 0 to 19, with
    the flags byte at offset 18 and the checksum byte at offset 19. The
    header encoder writes, and the header decoder reads, these two fields
    at exactly those offsets, so that a header that is encoded and then
    decoded (with any payload after it) gives the same flags and checksum;
    offset 20 is outside the encoded header. *)
Theorem header_flags_at_18_checksum_at_19
    (packet : Packet) (d data : Buffer) (h : PacketHeader) :
  createPacketHeader packet = Normal d ->
  parseReceivedPacketHeader data = Normal h ->
  (length d = 20%nat /\
   d !! 18%nat = Some (byteOfZ (flags (header packet))) /\
   d !! 19%nat = Some (byteOfZ (checksum (header packet))) /\
   d !! 20%nat = None) /\
  (exists f c : byte,
     data !! 18%nat = Some f /\ data !! 19%nat = Some c /\
     flags h = byteToZ f /\ checksum h = byteToZ c) /\
  (forall rest : Buffer, exists h' : PacketHeader,
     parseReceivedPacketHeader (d ++ rest) = Normal h' /\
     flags h' = flags (header packet) /\
     checksum h' = checksum (header packet)).
Proof.
  intros Henc Hdec.
  apply createPacketHeader_Normal in Henc as (Hlen & Rf & Rc & Hf & Hc).
  split; [|split].
  - repeat split; try done. apply lookup_ge_None_2. lia.
  - apply parseReceivedPacketHeader_Normal in Hdec
      as (f & c & Hf' & Hc' & Ef & Ec & _).
    exists f, c. done.
  - intros rest.
    destruct (parseReceivedPacketHeader_total (d ++ rest)) as [h' Hh'].
    { rewrite length_app. lia. }
    exists h'. split; [done|].
    apply parseReceivedPacketHeader_Normal in Hh'
      as (f & c & Hf' & Hc' & Ef & Ec & _).
    rewrite lookup_app_l in Hf' by lia. rewrite lookup_app_l in Hc' by lia.
    rewrite Hf in Hf'. rewrite Hc in Hc'.
    injection Hf' as <-. injection Hc' as <-.
    rewrite Ef, Ec. split; apply byteToZ_byteOfZ; lia.
Qed.

Lemma header_flags_at_18_checksum_at_19_witness :
  createPacketHeader flaggedPacket = Normal flaggedPacketBytes /\
  parseReceivedPacketHeader flaggedDatagram = Normal flaggedDatagramHeader /\
  flaggedPacketBytes !! 18%nat
    = Some (byteOfZ (flags (header flaggedPacket))) /\
  flaggedPacketBytes !! 19%nat
    = Some (byteOfZ (checksum (header flaggedPacket))) /\
  flaggedPacketBytes !! 20%nat = None.
Proof.
  split; [reflexivity|]. split; [reflexivity|].
  destruct (header_flags_at_18_checksum_at_19
              flaggedPacket flaggedPacketBytes
              flaggedDatagram flaggedDatagramHeader
              eq_refl eq_refl) as [(_ & Hf & Hc & Hnone) _].
  split; [exact Hf|]. split; [exact Hc|exact Hnone].
Defined.

(** The claim of C4 as the spec words it, flags at offset 19 and checksum
    at offset 20, fails on both sides of the codec: the encoder puts the
    checksum, not the flags, at offset 19 and returns no byte at offset 20;
    the decoder takes flags 1 and checksum 2 from a datagram whose bytes
    at offsets 19 and 20 are 2 and 3. *)
Lemma header_flags_not_at_19_checksum_not_at_20 :
  createPacketHeader flaggedPacket = Normal flaggedPacketBytes /\
  flags (header flaggedPacket) = 1 /\
  checksum (header flaggedPacket) = 2 /\
  flaggedPacketBytes !! 19%nat = Some x02 /\
  flaggedPacketBytes !! 20%nat = None /\
  parseReceivedPacketHeader flaggedDatagram = Normal flaggedDatagramHeader /\
  flaggedDatagram !! 19%nat = Some x02 /\
  flaggedDatagram !! 20%nat = Some x03 /\
  flags flaggedDatagramHeader = 1 /\
  checksum flaggedDatagramHeader = 2.
Proof.
  repeat split; reflexivity.
Qed.

(** ** The receive path *)

(** Unfolds the monad and the primitive operations of the receive path. *)
Ltac eff :=
  cbv beta iota zeta delta
    [mbind mret Eff_bind Eff_ret getHandlers getPacketBuffer
     deletePacketBuffer setPacketBuffer newObject readObject writeObject
     throw emit lastPacket].

Section ReceivePath.

Context {Value : Type}.
Implicit Types (r : Receiver Value) (log : list (Event Value)).
Implicit Types (e : PacketBufferEntry) (packet : Packet).

Lemma handleReceivedData_short (data : Buffer) r log :
  (length data < 20)%nat ->
  handleReceivedData data r log = (Throw RangeError, r, log).
Proof.
  intros Hlen.
  unfold handleReceivedData, parseReceivedPacket, parsePacket.
  by rewrite parseReceivedPacketHeader_short.
Qed.

(** C3: a datagram of fewer than twenty bytes creates and changes no
    entry, but it is not dropped as a local error: the RangeError of the
    header parser leaves the 'message' listener uncaught, the process ends
    and the datagrams behind it are not handled. *)
Theorem short_datagram_ends_receive_loop
    (data : Buffer) (rest : list Buffer) r log :
  (length data < 20)%nat ->
  receiveLoop (data :: rest) r log = (Crashed RangeError r, log).
Proof.
  intros Hlen. cbn [receiveLoop].
  by rewrite handleReceivedData_short.
Qed.

(** *** convertBufferEntriesToPacket *)

Lemma Buffer_copy_zeros (pre src : Buffer) (n : nat) :
  (length src <= n)%nat ->
  Buffer_copy src (pre ++ replicate n x00) (length pre) =
  (pre ++ src) ++ replicate (n - length src) x00.
Proof.
  intros Hlen. unfold Buffer_copy.
  rewrite take_app_length, length_app, length_replicate.
  replace (length pre + n - length pre)%nat with n by lia.
  rewrite (take_ge src) by lia.
  rewrite drop_app_add, drop_replicate.
  by rewrite <- app_assoc.
Qed.

Lemma copy_packets (ps : list Packet) (pre : Buffer) (n : nat) :
  (length (concat (payloads ps)) <= n)%nat ->
  foldl (fun '(data, pos) packet =>
           (Buffer_copy (rawData (payload packet)) data pos,
            (pos + length (rawData (payload packet)))%nat))
        (pre ++ replicate n x00, length pre) ps =
  ((pre ++ concat (payloads ps))
     ++ replicate (n - length (concat (payloads ps))) x00,
   length (pre ++ concat (payloads ps))).
Proof.
  unfold payloads. revert pre n.
  induction ps as [|p ps IH]; intros pre n Hlen; cbn.
  - by rewrite app_nil_r, Nat.sub_0_r.
  - cbn in Hlen. rewrite length_app in Hlen.
    rewrite Buffer_copy_zeros by lia.
    rewrite <- length_app, IH by lia.
    rewrite <- !app_assoc, !length_app.
    f_equal; try lia. do 3 f_equal. apply (f_equal (fun k => replicate k x00)). lia.
Qed.

(** When [totalDataBytes] is the sum of the payload lengths, the result is
    the concatenation of the payloads in the order of the entry. *)
Lemma convertBufferEntriesToPacket_concat e :
  totalDataBytes e = Buffer_byteLength (concat (payloads (packets e))) ->
  convertBufferEntriesToPacket e = concat (payloads (packets e)).
Proof.
  intros Htot. unfold convertBufferEntriesToPacket, Buffer_alloc.
  rewrite Htot. unfold Buffer_byteLength. rewrite Nat2Z.id.
  pose proof (copy_packets (packets e) []
                (length (concat (payloads (packets e)))) (Nat.le_refl _))
    as Hcopy.
  cbn [app length] in Hcopy. rewrite Hcopy.
  cbn [fst]. by rewrite Nat.sub_diag, app_nil_r.
Qed.

(** *** checkReceivedPacket *)

Lemma forEach_emit {A : Type} (xs : list A) (f : A -> Event Value) r log :
  forEach xs (fun x => emit (f x)) r log = (Normal tt, r, log ++ map f xs).
Proof.
  revert log. induction xs as [|x xs IH]; intros log.
  - cbn. by rewrite app_nil_r.
  - change (forEach (x :: xs) (fun x => emit (f x)) r log)
      with (forEach xs (fun x => emit (f x)) r (log ++ [f x])).
    rewrite IH. cbn. by rewrite <- app_assoc.
Qed.

Lemma checkReceivedPacket_unregistered (idx : Z) (ref : Ref) r log :
  listenersFor r idx = [] ->
  checkReceivedPacket idx ref r log = (Normal tt, dropEntry r idx, log).
Proof.
  unfold listenersFor, checkReceivedPacket. intros Hl. eff.
  by rewrite Hl.
Qed.

Lemma checkReceivedPacket_complete (idx : Z) (ref : Ref) r log e first others :
  listenersFor r idx = first :: others ->
  objects r !! ref = Some e ->
  byteLength (dataType first) = totalDataBytes e ->
  checkReceivedPacket idx ref r log =
  (Normal tt, storeEntry r ref (withHandled e true),
   log ++ callbacks (first :: others) (convertBufferEntriesToPacket e)).
Proof.
  unfold listenersFor, checkReceivedPacket. intros Hl Ho Hb.
  eff. rewrite Hl, Ho, Hb, Z.eqb_refl.
  pose proof (forEach_emit (first :: others)
                (fun l => CallbackInvoked l
                   (convertFromBuffer (dataType l)
                      (convertBufferEntriesToPacket e))) r log) as Hemit.
  unfold emit in Hemit. rewrite Hemit.
  by rewrite Ho.
Qed.

Lemma checkReceivedPacket_waiting (idx : Z) (ref : Ref) r log e first others :
  listenersFor r idx = first :: others ->
  objects r !! ref = Some e ->
  byteLength (dataType first) <> totalDataBytes e ->
  checkReceivedPacket idx ref r log = (Normal tt, r, log).
Proof.
  unfold listenersFor, checkReceivedPacket. intros Hl Ho Hb.
  eff. rewrite Hl, Ho.
  apply Z.eqb_neq in Hb. rewrite Hb.
  by destruct (_ >? _).
Qed.


(** *** handleReceivedPacket: the cases of the first part *)

Lemma ingestFragment_absent packet r log :
  packetBuffer r !! index (header packet) = None ->
  ingestFragment packet r log =
  if subIndex (header packet) =? 0
  then (Normal (Some (nextRef r)), startEntry r packet, log)
  else (Normal None, r, log).
Proof.
  intros Hpb. unfold ingestFragment, restartBuffer. eff. rewrite Hpb.
  destruct (subIndex (header packet) =? 0); [|done].
  cbn. by rewrite lookup_insert_eq.
Qed.

Lemma ingestFragment_continue packet r log ref e lastp :
  packetBuffer r !! index (header packet) = Some ref ->
  objects r !! ref = Some e ->
  entryCounter e = counter (header packet) ->
  last (packets e) = Some lastp ->
  ingestFragment packet r log =
  if subIndex (header packet) =? subIndex (header lastp) + 1
  then (Normal (Some ref), storeEntry r ref (withPacket e packet), log)
  else (Normal None, dropEntry r (index (header packet)), log).
Proof.
  intros Hpb Ho Hc Hlast. unfold ingestFragment, continueBuffer. eff.
  rewrite Hpb, Ho, Hc, Z.eqb_refl, Ho, Hlast.
  by destruct (_ =? _).
Qed.

Lemma ingestFragment_restart packet r log ref e :
  packetBuffer r !! index (header packet) = Some ref ->
  objects r !! ref = Some e ->
  entryCounter e <> counter (header packet) ->
  ingestFragment packet r log =
  let r1 := if handled e then r else dropEntry r (index (header packet)) in
  if subIndex (header packet) =? 0
  then (Normal (Some (nextRef r1)), startEntry r1 packet, log)
  else (Normal (Some ref), r1, log).
Proof.
  intros Hpb Ho Hc. unfold ingestFragment, restartBuffer. eff.
  rewrite Hpb, Ho. apply Z.eqb_neq in Hc. rewrite Hc, Ho.
  destruct (handled e); cbn;
    destruct (subIndex (header packet) =? 0); try done;
    cbn; by rewrite lookup_insert_eq.
Qed.

(** *** The invariant *)

Lemma entry_wf_last e lastp :
  entry_wf e -> last (packets e) = Some lastp ->
  subIndex (header lastp) = Z.of_nat (length (packets e)) - 1.
Proof.
  intros (_ & Hsub & _) Hlast.
  apply last_Some in Hlast as [ps Hps]. rewrite Hps in Hsub.
  unfold subIndexes in Hsub.
  rewrite map_app, length_app, Nat.add_1_r, seqZ_S in Hsub. cbn in Hsub.
  apply app_inj_tail in Hsub as [_ Hk].
  rewrite Hps, length_app. cbn. lia.
Qed.

Lemma entry_wf_is_last e : entry_wf e -> is_Some (last (packets e)).
Proof. intros (Hne & _). by apply last_is_Some. Qed.

Lemma entry_wf_freshEntry packet :
  subIndex (header packet) = 0 -> entry_wf (freshEntry packet).
Proof.
  intros Hk. repeat split; cbn.
  - done.
  - by rewrite Hk.
  - by rewrite app_nil_r.
Qed.

Lemma entry_wf_withPacket e lastp packet :
  entry_wf e -> last (packets e) = Some lastp ->
  subIndex (header packet) = subIndex (header lastp) + 1 ->
  entry_wf (withPacket e packet).
Proof.
  intros Hwf Hlast Hk.
  pose proof (entry_wf_last e lastp Hwf Hlast) as Hl.
  destruct Hwf as (Hne & Hsub & Htot). repeat split; cbn.
  - intros Heq. by apply app_eq_nil in Heq as [_ ?].
  - unfold subIndexes in *.
    rewrite map_app, length_app, Nat.add_1_r, seqZ_S, Hsub. cbn.
    f_equal. f_equal. lia.
  - unfold payloads, Buffer_byteLength in *.
    rewrite map_app, concat_app, !length_app, Htot. cbn.
    rewrite app_nil_r. lia.
Qed.

Lemma entry_wf_withHandled e b : entry_wf e -> entry_wf (withHandled e b).
Proof. by intros (? & ? & ?). Qed.

Lemma receiver_wf_dropEntry r idx :
  receiver_wf r -> receiver_wf (dropEntry r idx).
Proof.
  intros [Hobj Hpb]. split; cbn; [done|].
  intros idx' ref [_ Hin]%lookup_delete_Some. by eapply Hpb.
Qed.

Lemma receiver_wf_storeEntry r ref e0 e :
  receiver_wf r -> objects r !! ref = Some e0 -> entry_wf e ->
  receiver_wf (storeEntry r ref e).
Proof.
  intros [Hobj Hpb] Ho He. split; cbn.
  - intros ref' e' [[<- <-]|[_ Hin]]%lookup_insert_Some.
    + split; [done|]. by eapply Hobj.
    + by eapply Hobj.
  - intros idx ref' Hin. apply lookup_insert_is_Some'. right.
    by eapply Hpb.
Qed.

Lemma receiver_wf_startEntry r packet :
  receiver_wf r -> subIndex (header packet) = 0 ->
  receiver_wf (startEntry r packet).
Proof.
  intros [Hobj Hpb] Hk. split; cbn.
  - intros ref' e' [[<- <-]|[_ Hin]]%lookup_insert_Some.
    + split; [by apply entry_wf_freshEntry|lia].
    + destruct (Hobj _ _ Hin). split; [done|lia].
  - intros idx ref' [[_ <-]|[_ Hin]]%lookup_insert_Some.
    + by rewrite lookup_insert_eq.
    + apply lookup_insert_is_Some'. right. by eapply Hpb.
Qed.

Lemma receiver_wf_newReceiver : receiver_wf (@newReceiver Value).
Proof. split; cbn; intros ? ? H; by rewrite lookup_empty in H. Qed.

Lemma receiver_wf_addHandler id ty cb r :
  receiver_wf r -> receiver_wf (snd (addHandler id ty cb r)).
Proof. by intros [Hobj Hpb]. Qed.

(** *** The completeness check keeps the invariant *)

Lemma checkReceivedPacket_cases (idx : Z) (ref : Ref) r log e :
  objects r !! ref = Some e ->
  (listenersFor r idx = [] /\
   checkReceivedPacket idx ref r log = (Normal tt, dropEntry r idx, log)) \/
  (listenersFor r idx <> [] /\
   exists log',
     checkReceivedPacket idx ref r log =
     (Normal tt, storeEntry r ref (withHandled e true), log')) \/
  (listenersFor r idx <> [] /\
   checkReceivedPacket idx ref r log = (Normal tt, r, log)).
Proof.
  intros Ho. destruct (listenersFor r idx) as [|first others] eqn:Hl.
  - left. split; [done|]. by apply checkReceivedPacket_unregistered.
  - right.
    destruct (decide (byteLength (dataType first) = totalDataBytes e))
      as [Heq|Hne].
    + left. split; [done|]. eexists.
      by eapply checkReceivedPacket_complete.
    + right. split; [done|]. by eapply checkReceivedPacket_waiting.
Qed.

(** A first fragment whose entry has just been started: the check removes
    the entry when the list has no listener, and keeps it, with the one
    fragment, otherwise. *)
Lemma checkReceivedPacket_started packet r log :
  receiver_wf r ->
  subIndex (header packet) = 0 ->
  exists r' log',
    checkReceivedPacket (index (header packet)) (nextRef r)
      (startEntry r packet) log = (Normal tt, r', log') /\
    receiver_wf r' /\ handlers r' = handlers r /\
    ((listenersFor r (index (header packet)) = [] /\
      packetBuffer r' !! index (header packet) = None) \/
     (listenersFor r (index (header packet)) <> [] /\
      exists e',
        packetBuffer r' !! index (header packet) = Some (nextRef r) /\
        objects r' !! nextRef r = Some e' /\
        packets e' = [packet] /\
        entryCounter e' = counter (header packet) /\
        totalDataBytes e' = Buffer_byteLength (rawData (payload packet)))).
Proof.
  intros Hwf Hk.
  pose proof (receiver_wf_startEntry r packet Hwf Hk) as Hwf1.
  assert (objects (startEntry r packet) !! nextRef r
          = Some (freshEntry packet)) as Ho
    by (cbn; by rewrite lookup_insert_eq).
  assert (packetBuffer (startEntry r packet) !! index (header packet)
          = Some (nextRef r)) as Hpb
    by (cbn; by rewrite lookup_insert_eq).
  destruct (checkReceivedPacket_cases (index (header packet)) (nextRef r)
              (startEntry r packet) log (freshEntry packet) Ho)
    as [[Hl ->]|[[Hl [log' ->]]|[Hl ->]]].
  - do 2 eexists. split; [done|]. split; [|split; [done|]].
    + by apply receiver_wf_dropEntry.
    + left. split; [done|]. cbn. by rewrite lookup_delete_eq.
  - do 2 eexists. split; [done|]. split; [|split; [done|]].
    + apply (receiver_wf_storeEntry _ _ (freshEntry packet)); [done|done|].
      by apply entry_wf_withHandled, entry_wf_freshEntry.
    + right. split; [done|]. eexists. split; [exact Hpb|].
      split; [cbn; by rewrite lookup_insert_eq|done].
  - do 2 eexists. split; [done|]. split; [done|split; [done|]].
    right. split; [done|]. by exists (freshEntry packet).
Qed.

(** *** handleReceivedPacket keeps the invariant and never throws *)

Lemma handleReceivedPacket_first packet r log :
  receiver_wf r ->
  subIndex (header packet) = 0 ->
  exists r' log',
    handleReceivedPacket packet r log = (Normal tt, r', log') /\
    receiver_wf r' /\ handlers r' = handlers r /\
    tailAt r' (index (header packet)) (counter (header packet)) 0.
Proof.
  intros Hwf Hk. unfold handleReceivedPacket. eff.
  assert (forall r1, receiver_wf r1 -> handlers r1 = handlers r ->
    exists r' log',
      checkReceivedPacket (index (header packet)) (nextRef r1)
        (startEntry r1 packet) log = (Normal tt, r', log') /\
      receiver_wf r' /\ handlers r' = handlers r /\
      tailAt r' (index (header packet)) (counter (header packet)) 0)
    as Hstart.
  { intros r1 Hwf1 Hh.
    destruct (checkReceivedPacket_started packet r1 log Hwf1 Hk)
      as (r' & log' & Hc & Hwf' & Hh' & Hcase).
    exists r', log'. split; [done|]. split; [done|].
    split; [congruence|].
    destruct Hcase as [[_ Hnone]|[_ (e' & Hpb & Ho & Hps & Hcnt & _)]].
    - by left.
    - right. exists (nextRef r1), e', packet.
      rewrite Hps. done. }
  destruct (packetBuffer r !! index (header packet)) as [ref|] eqn:Hpb.
  - destruct (proj2 Hwf _ _ Hpb) as [e Ho].
    pose proof (proj1 (proj1 Hwf _ _ Ho)) as He.
    destruct (decide (entryCounter e = counter (header packet)))
      as [Hc|Hc].
    + destruct (entry_wf_is_last e He) as [lastp Hlast].
      pose proof (entry_wf_last e lastp He Hlast) as Hl.
      assert (length (packets e) <> 0%nat) as Hlen
        by (destruct He as [Hne _]; by destruct (packets e)).
      rewrite (ingestFragment_continue packet r log ref e lastp)
        by done.
      replace (subIndex (header packet) =? subIndex (header lastp) + 1)
        with false by (symmetry; apply Z.eqb_neq; lia).
      do 2 eexists. split; [done|].
      split; [by apply receiver_wf_dropEntry|]. split; [done|].
      left. cbn. by rewrite lookup_delete_eq.
    + rewrite (ingestFragment_restart packet r log ref e) by done.
      cbv zeta. rewrite Hk. cbn [Z.eqb].
      destruct (handled e).
      * by apply Hstart.
      * apply (Hstart (dropEntry r (index (header packet))));
          [by apply receiver_wf_dropEntry|done].
  - rewrite ingestFragment_absent by done.
    rewrite Hk. cbn [Z.eqb]. by apply Hstart.
Qed.

Lemma handleReceivedPacket_next packet r log (c k : Z) :
  receiver_wf r ->
  tailAt r (index (header packet)) c k ->
  counter (header packet) = c ->
  subIndex (header packet) <> 0 ->
  exists r' log',
    handleReceivedPacket packet r log = (Normal tt, r', log') /\
    receiver_wf r' /\ handlers r' = handlers r /\
    (subIndex (header packet) = k + 1 ->
     tailAt r' (index (header packet)) c (k + 1)) /\
    (subIndex (header packet) <> k + 1 ->
     packetBuffer r' !! index (header packet) = None).
Proof.
  intros Hwf Htail Hc Hk. unfold handleReceivedPacket. eff.
  destruct Htail as [Hpb|(ref & e & lastp & Hpb & Ho & Hce & Hlast & Hl)].
  - rewrite ingestFragment_absent by done.
    replace (subIndex (header packet) =? 0)
      with false by (symmetry; by apply Z.eqb_neq).
    exists r, log. do 3 (split; [done|]).
    split; [intros _; by left|done].
  - pose proof (proj1 (proj1 Hwf _ _ Ho)) as He.
    rewrite (ingestFragment_continue packet r log ref e lastp)
      by (try done; congruence).
    rewrite Hl.
    destruct (decide (subIndex (header packet) = k + 1)) as [Hnext|Hgap].
    + replace (subIndex (header packet) =? k + 1)
        with true by (symmetry; by apply Z.eqb_eq).
      set (e1 := withPacket e packet).
      assert (entry_wf e1) as He1
        by (eapply entry_wf_withPacket; eauto; congruence).
      assert (objects (storeEntry r ref e1) !! ref = Some e1) as Ho1
        by (cbn; by rewrite lookup_insert_eq).
      pose proof (receiver_wf_storeEntry r ref e e1 Hwf Ho He1) as Hwf1.
      assert (last (packets e1) = Some packet) as Hlast1
        by (cbn; apply last_snoc).
      destruct (checkReceivedPacket_cases (index (header packet)) ref
                  (storeEntry r ref e1) log e1 Ho1)
        as [[_ ->]|[[_ [log' ->]]|[_ ->]]].
      * do 2 eexists. split; [done|].
        split; [by apply receiver_wf_dropEntry|]. split; [done|].
        split; [|done]. intros _. left. cbn. by rewrite lookup_delete_eq.
      * do 2 eexists. split; [done|].
        split; [by apply (receiver_wf_storeEntry _ _ e1),
                         entry_wf_withHandled|].
        split; [done|]. split; [|done]. intros _. right.
        exists ref, (withHandled e1 true), packet.
        split; [exact Hpb|]. split; [cbn; by rewrite lookup_insert_eq|].
        cbn. split; [congruence|]. by rewrite last_snoc.
      * do 2 eexists. split; [done|]. split; [done|]. split; [done|].
        split; [|done]. intros _. right. exists ref, e1, packet.
        split; [exact Hpb|]. split; [exact Ho1|].
        cbn. split; [congruence|]. by rewrite last_snoc.
    + replace (subIndex (header packet) =? k + 1)
        with false by (symmetry; by apply Z.eqb_neq).
      do 2 eexists. split; [done|].
      split; [by apply receiver_wf_dropEntry|]. split; [done|].
      split; [done|]. intros _. cbn. by rewrite lookup_delete_eq.
Qed.


(** C6: an entry and an incoming fragment of the same counter whose
    sub-index is not the last stored sub-index plus one: the entry is
    deleted, the fragment is not stored and no callback runs. After the
    fragments with sub-indexes 0, 1, 3 of one counter the list has no
    entry, and a following fragment with sub-index 0 starts a new entry
    that holds this fragment alone (the completeness check keeps it when
    the list has a listener). *)
Theorem gap_discards_entry_and_fragment :
  (forall r log packet ref e lastp,
     packetBuffer r !! index (header packet) = Some ref ->
     objects r !! ref = Some e ->
     entryCounter e = counter (header packet) ->
     last (packets e) = Some lastp ->
     subIndex (header packet) <> subIndex (header lastp) + 1 ->
     handleReceivedPacket packet r log =
       (Normal tt, dropEntry r (index (header packet)), log) /\
     packetBuffer (dropEntry r (index (header packet)))
       !! index (header packet) = None /\
     objects (dropEntry r (index (header packet))) = objects r) /\
  (forall r log f0 f1 f3 f4 (idx c : Z),
     receiver_wf r ->
     Forall (fun f => index (header f) = idx) [f0; f1; f3; f4] ->
     Forall (fun f => counter (header f) = c) [f0; f1; f3] ->
     subIndexes [f0; f1; f3; f4] = [0; 1; 3; 0] ->
     exists r3 log3,
       forEach [f0; f1; f3] handleReceivedPacket r log
         = (Normal tt, r3, log3) /\
       packetBuffer r3 !! idx = None /\
       ingestFragment f4 r3 log3
         = (Normal (Some (nextRef r3)), startEntry r3 f4, log3) /\
       bufferEntry (startEntry r3 f4) idx = Some (freshEntry f4) /\
       (listenersFor r idx <> [] ->
        exists r4 log4 e4,
          handleReceivedPacket f4 r3 log3 = (Normal tt, r4, log4) /\
          bufferEntry r4 idx = Some e4 /\
          packets e4 = [f4] /\
          entryCounter e4 = counter (header f4) /\
          totalDataBytes e4 = Buffer_byteLength (rawData (payload f4)))).
Proof.
  split.
  - intros r log packet ref e lastp Hpb Ho Hc Hlast Hgap.
    split; [|split; [cbn; by rewrite lookup_delete_eq|done]].
    unfold handleReceivedPacket. eff.
    rewrite (ingestFragment_continue packet r log ref e lastp) by done.
    by replace (subIndex (header packet) =? subIndex (header lastp) + 1)
      with false by (symmetry; by apply Z.eqb_neq).
  - intros r log f0 f1 f3 f4 idx c Hwf Hidx Hcnt Hsub.
    apply Forall_cons in Hidx as [I0 Hidx].
    apply Forall_cons in Hidx as [I1 Hidx].
    apply Forall_cons in Hidx as [I3 Hidx].
    apply Forall_cons in Hidx as [I4 _].
    apply Forall_cons in Hcnt as [C0 Hcnt].
    apply Forall_cons in Hcnt as [C1 Hcnt].
    apply Forall_cons in Hcnt as [C3 _].
    injection Hsub as K0 K1 K3 K4.
    destruct (handleReceivedPacket_first f0 r log Hwf K0)
      as (r1 & log1 & H0 & Hwf1 & Hh1 & T1).
    rewrite I0, C0 in T1. rewrite <- I1 in T1.
    destruct (handleReceivedPacket_next f1 r1 log1 c 0 Hwf1 T1 C1)
      as (r2 & log2 & H1 & Hwf2 & Hh2 & T2 & _); [lia|].
    specialize (T2 K1). rewrite I1, <- I3 in T2.
    destruct (handleReceivedPacket_next f3 r2 log2 c 1 Hwf2 T2 C3)
      as (r3 & log3 & H3 & Hwf3 & Hh3 & _ & N3); [lia|].
    assert (packetBuffer r3 !! idx = None) as Hnone
      by (rewrite <- I3; apply N3; lia).
    exists r3, log3. split; [|split; [done|]].
    { cbn [forEach]. eff. by rewrite H0, H1, H3. }
    rewrite <- I4 in Hnone.
    pose proof (ingestFragment_absent f4 r3 log3 Hnone) as Hing.
    rewrite K4 in Hing. cbn [Z.eqb] in Hing.
    split; [done|]. split.
    { unfold bufferEntry. cbn. rewrite <- I4.
      rewrite lookup_insert_eq. cbn. by rewrite lookup_insert_eq. }
    intros Hl.
    destruct (checkReceivedPacket_started f4 r3 log3 Hwf3 K4)
      as (r4 & log4 & Hc4 & _ & _ & [[Hl0 _]|[_ Hkept]]).
    { exfalso. apply Hl. rewrite <- I4. unfold listenersFor in *.
      by rewrite <- Hh1, <- Hh2, <- Hh3. }
    destruct Hkept as (e4 & Hpb4 & Ho4 & Hps & Hc & Ht).
    exists r4, log4, e4. split.
    { unfold handleReceivedPacket. eff. by rewrite Hing. }
    split; [|done]. unfold bufferEntry. rewrite <- I4, Hpb4. exact Ho4.
Qed.

(** The defect behind C1, in general: a fragment that is not a first
    fragment, for a list whose entry has been handled under another
    counter, hands the old entry to the completeness check again; the
    listeners are called a second time with the old data. *)
Lemma handleReceivedPacket_stale_entry packet r log ref e first others :
  packetBuffer r !! index (header packet) = Some ref ->
  objects r !! ref = Some e ->
  handled e = true ->
  entryCounter e <> counter (header packet) ->
  subIndex (header packet) <> 0 ->
  listenersFor r (index (header packet)) = first :: others ->
  byteLength (dataType first) = totalDataBytes e ->
  handleReceivedPacket packet r log =
  (Normal tt, storeEntry r ref (withHandled e true),
   log ++ callbacks (first :: others) (convertBufferEntriesToPacket e)).
Proof.
  intros Hpb Ho Hh Hc Hk Hl Hb. unfold handleReceivedPacket. eff.
  rewrite (ingestFragment_restart packet r log ref e) by done.
  cbv zeta. rewrite Hh.
  replace (subIndex (header packet) =? 0)
    with false by (symmetry; by apply Z.eqb_neq).
  by eapply checkReceivedPacket_complete.
Qed.

(** *** parseReceivedPacket *)

Lemma slice_header (data : Buffer) :
  (20 <= length data)%nat -> slice data 0 20 = take 20 data.
Proof.
  intros Hlen. unfold slice, clampIndex, Buffer_byteLength. cbn.
  rewrite (Z.min_l 20), (Z.min_l 0) by lia. done.
Qed.

Lemma sliceFrom_header (data : Buffer) :
  (20 <= length data)%nat -> sliceFrom data 20 = drop 20 data.
Proof.
  intros Hlen. unfold sliceFrom, slice, clampIndex, Buffer_byteLength.
  cbn. rewrite (Z.min_l 20) by lia.
  replace (Z.of_nat (length data) <? 0) with false
    by (symmetry; apply Z.ltb_ge; lia).
  rewrite Z.min_id. change (Z.to_nat 20) with 20%nat.
  apply take_ge. rewrite length_drop. lia.
Qed.

Lemma parsePacket_total (data : Buffer) :
  (20 <= length data)%nat ->
  exists packet,
    parsePacket data = Normal packet /\
    rawData (payload packet) = drop 20 data /\
    pktRawData packet = data.
Proof.
  intros Hlen.
  destruct (parseReceivedPacketHeader_total data Hlen) as [h Hh].
  pose proof (parseReceivedPacketHeader_Normal data h Hh)
    as (_ & _ & _ & _ & _ & _ & Hraw & _).
  unfold parsePacket. rewrite Hh. cbn. eexists. split; [done|].
  cbn. split; [|done].
  rewrite Hraw, slice_header by done.
  unfold Buffer_byteLength. rewrite length_take, Nat.min_l by lia.
  by apply sliceFrom_header.
Qed.




(** *** listen *)

(** C8: [listen] on a receiver that already has a socket rejects; the
    receiver (its socket, its handler list and its packet buffer) is the
    same afterwards and there is no effect: no socket is created. *)
Theorem listen_while_listening_rejects (env : BindOutcome) r (s : Socket) :
  socket r = Some s ->
  listen env r = (Rejected AlreadyConnected, r, []).
Proof.
  intros Hs. unfold listen. by rewrite Hs.
Qed.

End ReceivePath.

(** *** Examples of the receive path *)

Lemma short_datagram_ends_receive_loop_witness :
  (length shortDatagram < 20)%nat /\
  receiveLoop [shortDatagram; firstDatagram] receiver50 []
    = (Crashed RangeError receiver50, []).
Proof.
  split; [cbn; lia|].
  apply (short_datagram_ends_receive_loop shortDatagram). cbn. lia.
Defined.

Lemma receiver_wf_receiver50 : receiver_wf receiver50.
Proof. apply receiver_wf_addHandler, receiver_wf_newReceiver. Qed.

Lemma listen_while_listening_rejects_witness :
  socket listeningReceiver = Some {| messageListener := true |} /\
  listen BindSucceeds listeningReceiver
    = (Rejected AlreadyConnected, listeningReceiver, []).
Proof.
  split; [reflexivity|].
  apply (listen_while_listening_rejects BindSucceeds listeningReceiver
           {| messageListener := true |}).
  reflexivity.
Defined.

(** C1: the entry of list 50 has been handled (counter 5). The second
    fragment of a message with counter 6 arrives, its first fragment was
    lost: the code calls the listener again with the four bytes of the
    handled entry, which stays in the buffer. A fragment without payload
    that continues counter 5 is appended to the handled entry and makes
    the code call the listener again as well. *)
Theorem handled_entry_is_delivered_again :
  receiveLoop [firstDatagram] receiver50 []
    = (Running receiverAfterFirst,
       [CallbackInvoked listener50 [x0a; x0b; x0c; x0d]]) /\
  handled <$> bufferEntry receiverAfterFirst 50 = Some true /\
  entryCounter <$> bufferEntry receiverAfterFirst 50 = Some 5 /\
  receiveLoop [strayDatagram] receiverAfterFirst []
    = (Running receiverAfterFirst,
       [CallbackInvoked listener50 [x0a; x0b; x0c; x0d]]) /\
  snd (receiveLoop [emptyContinuation] receiverAfterFirst [])
    = [CallbackInvoked listener50 [x0a; x0b; x0c; x0d]].
Proof.
  repeat split; reflexivity.
Qed.



Lemma gap_discards_entry_and_fragment_witness :
  receiver_wf receiver50 /\
  exists r3 log3,
    forEach [fragment 0 5 [x01]; fragment 1 5 [x02]; fragment 3 5 [x03]]
      handleReceivedPacket receiver50 [] = (Normal tt, r3, log3) /\
    packetBuffer r3 !! 50 = None /\
    exists r4 log4 e4,
      handleReceivedPacket (fragment 0 6 [x04]) r3 log3
        = (Normal tt, r4, log4) /\
      bufferEntry r4 50 = Some e4 /\
      packets e4 = [fragment 0 6 [x04]].
Proof.
  split; [exact receiver_wf_receiver50|].
  destruct (proj2 gap_discards_entry_and_fragment receiver50 []
              (fragment 0 5 [x01]) (fragment 1 5 [x02])
              (fragment 3 5 [x03]) (fragment 0 6 [x04]) 50 5
              receiver_wf_receiver50)
    as (r3 & log3 & Hrun & Hnone & _ & _ & Hkept).
  - repeat constructor.
  - repeat constructor.
  - reflexivity.
  - exists r3, log3. split; [exact Hrun|]. split; [exact Hnone|].
    destruct Hkept as (r4 & log4 & e4 & H4 & He4 & Hps & _).
    + discriminate.
    + exists r4, log4, e4. auto.
Defined.


(** ** The send path *)

Section SendPath.

Context {Value : Type}.
Implicit Types (s : Sender) (p packet : Packet) (raw : Buffer).
Implicit Types (element : IteratedElement).

(** *** The counter *)

Lemma send_counter (listID : Z) (dataType : IecType Value) (data : Value) s :
  send listID dataType data s =
  (mapM withRawData
     (splitToPackets listID (fst (nextCounter s))
        (convertToBuffer dataType data) (elementIterator dataType)),
   snd (nextCounter s)).
Proof. reflexivity. Qed.

Lemma sendMany_snoc (requests : list (Z * IecType Value * Value))
    (listID : Z) (dataType : IecType Value) (data : Value) s :
  sendMany (requests ++ [(listID, dataType, data)]) s =
  snd (send listID dataType data (sendMany requests s)).
Proof. unfold sendMany. by rewrite foldl_snoc. Qed.

Lemma counterAfter_step (n : Z) :
  0 <= n ->
  (if counterAfter n >=? 65535 then 0 else counterAfter n) = n mod 65535 /\
  counterAfter (n + 1) = n mod 65535 + 1.
Proof.
  intros Hn. unfold counterAfter.
  replace (n + 1 =? 0) with false by (symmetry; apply Z.eqb_neq; lia).
  replace (n + 1 - 1) with n by lia. split; [|done].
  destruct (n =? 0) eqn:H0.
  - apply Z.eqb_eq in H0. by subst.
  - apply Z.eqb_neq in H0.
    destruct (_ >=? 65535) eqn:Hge.
    + apply Z.geb_le in Hge.
      Z.to_euclidean_division_equations. lia.
    + rewrite Z.geb_leb in Hge. apply Z.leb_gt in Hge.
      Z.to_euclidean_division_equations. lia.
Qed.

Lemma sendMany_newSender (requests : list (Z * IecType Value * Value)) :
  sendMany requests newSender =
  {| targetPort := 1202; delayBetweenPackets := 5;
     counterNumber := counterAfter (Z.of_nat (length requests)) |}.
Proof.
  induction requests as [|[[listID dataType] data] requests IH]
    using rev_ind; [done|].
  rewrite sendMany_snoc, send_counter, IH. cbn [snd nextCounter].
  unfold nextCounter. cbn [counterNumber targetPort delayBetweenPackets snd].
  rewrite length_app, Nat2Z.inj_add. cbn [length].
  change (Z.of_nat 1) with 1.
  destruct (counterAfter_step (Z.of_nat (length requests)))
    as [-> ->]; [lia|done].
Qed.

Lemma nextCounter_sendMany (requests : list (Z * IecType Value * Value)) :
  fst (nextCounter (sendMany requests newSender))
  = Z.of_nat (length requests) mod 65535.
Proof.
  rewrite sendMany_newSender. unfold nextCounter. cbn.
  apply counterAfter_step. lia.
Qed.

(** *** The packetizer loop *)

Lemma addElement_cases (listID counterNo : Z) raw
    (packets : list Packet) packet element :
  addElement listID counterNo raw (packets, packet) element =
  if payloadLength (header packet) + elementByteLength element >? 256
  then (packets ++ [packet],
        withElement
          (withSubIndex (getEmptyPacket listID counterNo)
             (subIndex (header packet) + 1))
          (elementByteLength element) (elementBytes raw element))
  else (packets,
        withElement packet (elementByteLength element)
          (elementBytes raw element)).
Proof. unfold addElement. by destruct (_ >? _). Qed.

(** A property of packets that the loop establishes for every packet. *)
Lemma foldl_addElement_Forall (P : Packet -> Prop)
    (listID counterNo : Z) raw :
  (forall p n bytes, P p -> P (withElement p n bytes)) ->
  (forall i, P (withSubIndex (getEmptyPacket listID counterNo) i)) ->
  forall elements packets packet,
    Forall P packets -> P packet ->
    Forall P (fst (foldl (addElement listID counterNo raw)
                     (packets, packet) elements)) /\
    P (snd (foldl (addElement listID counterNo raw)
              (packets, packet) elements)).
Proof.
  intros Hel Hnew elements.
  induction elements as [|x elements IH]; intros packets packet Hps Hp;
    [done|].
  cbn [foldl]. rewrite addElement_cases.
  destruct (_ >? _); apply IH; auto.
  apply Forall_app. split; [done|]. by constructor.
Qed.

Lemma splitToPackets_unfold (listID counterNo : Z) raw elements :
  splitToPackets listID counterNo raw elements =
  fst (foldl (addElement listID counterNo raw)
         ([], getEmptyPacket listID counterNo) elements)
  ++ [snd (foldl (addElement listID counterNo raw)
             ([], getEmptyPacket listID counterNo) elements)].
Proof. unfold splitToPackets. by destruct (foldl _ _ _). Qed.

Lemma splitToPackets_counter (listID counterNo : Z) raw elements :
  Forall (fun p => counter (header p) = counterNo)
    (splitToPackets listID counterNo raw elements).
Proof.
  rewrite splitToPackets_unfold.
  destruct (foldl_addElement_Forall
              (fun p => counter (header p) = counterNo)
              listID counterNo raw) with (elements := elements)
              (packets := @nil Packet)
              (packet := getEmptyPacket listID counterNo)
    as [Hps Hp]; try done.
  apply Forall_app. split; [done|]. by constructor.
Qed.

(** C2 (amended): the counter of the messages of one sender counts
    0, 1, ..., 65534 and then 0 again: the message after [n] earlier ones
    carries the counter [n mod 65535] in every packet. The stored next
    counter does reach 65535, but it is reset to 0 before it is used, so
    that no message carries 65535. *)
Theorem message_counter_is_modulo_65535
    (requests : list (Z * IecType Value * Value))
    (listID : Z) (dataType : IecType Value) (data : Value) :
  send listID dataType data (sendMany requests newSender) =
  (mapM withRawData
     (splitToPackets listID (Z.of_nat (length requests) mod 65535)
        (convertToBuffer dataType data) (elementIterator dataType)),
   sendMany (requests ++ [(listID, dataType, data)]) newSender) /\
  Forall (fun p => counter (header p)
                   = Z.of_nat (length requests) mod 65535)
    (splitToPackets listID (Z.of_nat (length requests) mod 65535)
       (convertToBuffer dataType data) (elementIterator dataType)) /\
  0 <= Z.of_nat (length requests) mod 65535 <= 65534 /\
  1 <= counterNumber
         (sendMany (requests ++ [(listID, dataType, data)]) newSender)
    <= 65535.
Proof.
  split; [|split; [apply splitToPackets_counter|]].
  - rewrite sendMany_snoc, send_counter. by rewrite nextCounter_sendMany.
  - rewrite sendMany_newSender. cbn [counterNumber].
    rewrite length_app, Nat2Z.inj_add. change (Z.of_nat (length [_])) with 1.
    destruct (counterAfter_step (Z.of_nat (length requests))) as [_ ->];
      [lia|].
    Z.to_euclidean_division_equations. lia.
Qed.

End SendPath.

(** The claim of C2 as the spec words it, a counter modulo 65536 that
    reaches 65535, fails: the message after 65534 earlier ones carries
    65534, the stored counter is then 65535, and the next message carries 0,
    not 65535. *)
Lemma message_counter_skips_65535 :
  fst (nextCounter (sendMany (replicate (Z.to_nat 65534) emptyRequest) newSender))
    = 65534 /\
  counterNumber (sendMany (replicate (Z.to_nat 65535) emptyRequest) newSender)
    = 65535 /\
  fst (nextCounter (sendMany (replicate (Z.to_nat 65535) emptyRequest) newSender))
    = 0 /\
  (65534 + 1) mod 65536 = 65535.
Proof.
  rewrite !nextCounter_sendMany, sendMany_newSender, !length_replicate.
  rewrite !Z2Nat.id by lia.
  repeat split.
Qed.

(** ** The packetizer *)

Section Packetizer.

Context {Value : Type}.
Implicit Types (s : Sender) (p packet : Packet) (raw : Buffer).
Implicit Types (element : IteratedElement).

Lemma payload_withElement p (n : Z) (bytes : Buffer) :
  rawData (payload (withElement p n bytes)) = rawData (payload p) ++ bytes.
Proof. cbn. by rewrite app_nil_r. Qed.

(** The payloads of the packets, in order, are the payloads there were
    followed by the bytes of the elements, in order. *)
Lemma foldl_addElement_payloads (listID counterNo : Z) raw elements :
  forall (packets : list Packet) packet,
    concat (payloads
              (fst (foldl (addElement listID counterNo raw)
                      (packets, packet) elements)
               ++ [snd (foldl (addElement listID counterNo raw)
                          (packets, packet) elements)]))
    = concat (payloads (packets ++ [packet]))
        ++ concat (map (elementBytes raw) elements).
Proof.
  induction elements as [|x elements IH]; intros packets packet.
  - cbn. by rewrite app_nil_r.
  - cbn [foldl map concat]. rewrite addElement_cases.
    destruct (_ >? _); rewrite IH; unfold payloads;
      rewrite !map_app, !concat_app; cbn [map concat];
      rewrite payload_withElement; cbn; rewrite <- ?app_assoc;
      by rewrite ?app_nil_r.
Qed.

(** The sub-indexes of the packets count up from 0. *)
Lemma foldl_addElement_subIndexes (listID counterNo : Z) raw elements :
  forall (packets : list Packet) packet,
    subIndexes packets = seqZ 0 (Z.of_nat (length packets)) ->
    subIndex (header packet) = Z.of_nat (length packets) ->
    subIndexes (fst (foldl (addElement listID counterNo raw)
                       (packets, packet) elements)
                ++ [snd (foldl (addElement listID counterNo raw)
                           (packets, packet) elements)])
    = seqZ 0 (Z.of_nat
                (length (fst (foldl (addElement listID counterNo raw)
                                (packets, packet) elements)
                         ++ [snd (foldl (addElement listID counterNo raw)
                                    (packets, packet) elements)]))).
Proof.
  induction elements as [|x elements IH]; intros packets packet Hps Hp.
  - cbn [foldl fst snd]. unfold subIndexes in *.
    rewrite map_app, length_app, Nat.add_1_r, seqZ_S, Hps. cbn.
    by rewrite Hp.
  - cbn [foldl]. rewrite addElement_cases.
    destruct (_ >? _); apply IH; try done.
    + unfold subIndexes in *.
      rewrite map_app, length_app, Nat.add_1_r, seqZ_S, Hps. cbn.
      by rewrite Hp.
    + cbn. rewrite length_app. cbn. lia.
Qed.

(** The loop only appends to [packets]. *)
Lemma foldl_addElement_prefix (listID counterNo : Z) raw elements :
  forall (packets : list Packet) packet,
    exists tl,
      fst (foldl (addElement listID counterNo raw)
             (packets, packet) elements) = packets ++ tl.
Proof.
  induction elements as [|x elements IH]; intros packets packet.
  - exists []. cbn. by rewrite app_nil_r.
  - cbn [foldl]. rewrite addElement_cases.
    destruct (_ >? _).
    + destruct (IH (packets ++ [packet])
                  (withElement
                     (withSubIndex (getEmptyPacket listID counterNo)
                        (subIndex (header packet) + 1))
                     (elementByteLength x) (elementBytes raw x)))
        as [tl ->].
      exists (packet :: tl). by rewrite <- app_assoc.
    + apply IH.
Qed.

(** The current packet is continued by the packet that follows [packets]
    in the result. *)
Lemma foldl_addElement_continues (listID counterNo : Z) raw elements :
  forall (packets : list Packet) packet,
    exists p1 tl,
      fst (foldl (addElement listID counterNo raw)
             (packets, packet) elements)
      ++ [snd (foldl (addElement listID counterNo raw)
                 (packets, packet) elements)]
      = packets ++ p1 :: tl /\
      continues packet p1.
Proof.
  induction elements as [|x elements IH]; intros packets packet.
  - exists packet, []. split; [done|]. split; [done|].
    exists []. by rewrite app_nil_r.
  - cbn [foldl]. rewrite addElement_cases.
    destruct (_ >? _).
    + destruct (IH (packets ++ [packet])
                  (withElement
                     (withSubIndex (getEmptyPacket listID counterNo)
                        (subIndex (header packet) + 1))
                     (elementByteLength x) (elementBytes raw x)))
        as (p1 & tl & -> & _).
      exists packet, (p1 :: tl). rewrite <- app_assoc.
      split; [done|]. split; [done|]. exists []. by rewrite app_nil_r.
    + destruct (IH packets
                  (withElement packet (elementByteLength x)
                     (elementBytes raw x)))
        as (p1 & tl & -> & Hsub & more & Hmore).
      exists p1, tl. split; [done|]. split; [by rewrite Hsub|].
      exists (elementBytes raw x ++ more).
      rewrite Hmore, payload_withElement. by rewrite <- app_assoc.
Qed.

(** *** Tilings *)

Lemma tiling_le (pos len : Z) elements :
  tiling pos elements len -> pos <= len.
Proof.
  revert pos. induction elements as [|x elements IH]; intros pos; cbn.
  - lia.
  - intros (_ & Hn & Ht). apply IH in Ht. lia.
Qed.

Lemma elementBytes_tile raw element :
  0 <= startIndex element ->
  0 <= elementByteLength element ->
  startIndex element + elementByteLength element <= Buffer_byteLength raw ->
  elementBytes raw element =
  take (Z.to_nat (elementByteLength element))
       (drop (Z.to_nat (startIndex element)) raw).
Proof.
  intros Hs Hn Hend. unfold elementBytes, slice, clampIndex.
  replace (startIndex element <? 0) with false
    by (symmetry; apply Z.ltb_ge; lia).
  replace (startIndex element + elementByteLength element <? 0)
    with false by (symmetry; apply Z.ltb_ge; lia).
  rewrite !Z.min_l by lia. do 2 f_equal. lia.
Qed.

Lemma tiling_concat raw elements :
  forall pos,
    0 <= pos ->
    tiling pos elements (Buffer_byteLength raw) ->
    concat (map (elementBytes raw) elements) = drop (Z.to_nat pos) raw.
Proof.
  induction elements as [|x elements IH]; intros pos Hpos; cbn.
  - intros ->. unfold Buffer_byteLength. rewrite Nat2Z.id.
    by rewrite drop_all.
  - intros (Hs & Hn & Ht). pose proof (tiling_le _ _ _ Ht) as Hle.
    rewrite elementBytes_tile by lia.
    rewrite (IH (pos + elementByteLength x)) by (try done; lia).
    rewrite Hs, Z2Nat.inj_add by lia.
    rewrite <- drop_drop. apply take_drop.
Qed.

(** *** The raw data of the packets *)

Lemma withRawData_Normal p q :
  withRawData p = Normal q ->
  payload q = payload p /\
  subIndex (header q) = subIndex (header p) /\
  counter (header q) = counter (header p).
Proof.
  unfold withRawData. intros H.
  apply bind_Normal in H as (hdr & _ & H). cbn in H.
  by injection H as <-.
Qed.

Lemma mapM_withRawData (l ps : list Packet) :
  mapM withRawData l = Normal ps ->
  payloads ps = payloads l /\
  subIndexes ps = subIndexes l /\
  map (fun p => counter (header p)) ps = map (fun p => counter (header p)) l.
Proof.
  revert ps. induction l as [|p l IH]; intros ps H.
  - cbn in H. by injection H as <-.
  - cbn [mapM] in H.
    apply bind_Normal in H as (q & Hq & H).
    apply bind_Normal in H as (qs & Hqs & H).
    cbn in H. injection H as <-.
    apply withRawData_Normal in Hq as (Hpay & Hsub & Hcnt).
    destruct (IH qs Hqs) as (IH1 & IH2 & IH3).
    unfold payloads, subIndexes in *. cbn.
    by rewrite Hpay, Hsub, Hcnt, IH1, IH2, IH3.
Qed.

(** C7: when the field descriptors tile the raw message buffer
    contiguously and in order, the payloads of the packets of the
    packetizer, concatenated in the order of the sub-indexes (the order of
    the list), are the buffer again, also through the receiver's
    [convertBufferEntriesToPacket]; all packets carry the one counter of
    the call, and so do the packets that [send] hands to the socket. *)
Theorem split_then_concat_is_identity
    (listID counterNo : Z) raw elements :
  tiling 0 elements (Buffer_byteLength raw) ->
  concat (payloads (splitToPackets listID counterNo raw elements)) = raw /\
  subIndexes (splitToPackets listID counterNo raw elements)
  = seqZ 0 (Z.of_nat (length (splitToPackets listID counterNo raw elements)))
  /\
  Forall (fun p => counter (header p) = counterNo)
    (splitToPackets listID counterNo raw elements) /\
  convertBufferEntriesToPacket
    {| handled := false; entryCounter := counterNo;
       packets := splitToPackets listID counterNo raw elements;
       totalDataBytes := Buffer_byteLength raw |} = raw /\
  (forall (dataType : IecType Value) (data : Value) s ps s',
     convertToBuffer dataType data = raw ->
     elementIterator dataType = elements ->
     send listID dataType data s = (Normal ps, s') ->
     concat (payloads ps) = raw /\
     subIndexes ps = seqZ 0 (Z.of_nat (length ps)) /\
     Forall (fun p => counter (header p) = fst (nextCounter s)) ps).
Proof.
  intros Htile.
  assert (forall c,
            concat (payloads (splitToPackets listID c raw elements)) = raw)
    as Hcat.
  { intros c. rewrite splitToPackets_unfold, foldl_addElement_payloads.
    rewrite (tiling_concat raw elements 0) by (try done; lia).
    cbn. by rewrite drop_0. }
  assert (forall c,
            subIndexes (splitToPackets listID c raw elements)
            = seqZ 0 (Z.of_nat
                        (length (splitToPackets listID c raw elements))))
    as Hsub.
  { intros c. rewrite splitToPackets_unfold.
    by apply foldl_addElement_subIndexes. }
  split; [apply Hcat|]. split; [apply Hsub|].
  split; [apply splitToPackets_counter|]. split.
  - rewrite convertBufferEntriesToPacket_concat; cbn [packets totalDataBytes].
    + apply Hcat.
    + by rewrite Hcat.
  - intros dataType data s ps s' Hraw Hels Hsend.
    rewrite send_counter, Hraw, Hels in Hsend.
    remember (fst (nextCounter s)) as c eqn:Hc. clear Hc.
    injection Hsend as Hps _.
    apply mapM_withRawData in Hps as (Hpay & Hidx & Hcnt).
    rewrite Hpay, Hcat. split; [done|]. split.
    + rewrite Hidx, Hsub. f_equal. f_equal.
      apply (f_equal length) in Hidx. unfold subIndexes in Hidx.
      by rewrite !length_map in Hidx.
    + pose proof (splitToPackets_counter listID c raw elements) as Hall.
      apply (proj2 (List.Forall_map (fun p => counter (header p))
                      (fun x => x = c) _)) in Hall.
      rewrite <- Hcnt in Hall.
      by apply (proj1 (List.Forall_map (fun p => counter (header p))
                         (fun x => x = c) _)) in Hall.
Qed.

(** C10: when the first field is longer than 256 bytes, the packet list
    begins with the empty packet (sub-index 0, no variable, packet length
    20, no payload), and the packet after it has sub-index 1 and carries
    the bytes of the field first; it carries this field alone when no
    later field has a negative length. In general, whenever the current
    packet has no payload yet and the next field is longer than 256 bytes,
    the loop emits the current packet as it is and puts the field into a
    new one. *)
Theorem oversized_first_field_emits_empty_packet
    (listID counterNo : Z) raw element rest :
  256 < elementByteLength element ->
  (exists p1 tl,
     splitToPackets listID counterNo raw (element :: rest)
     = getEmptyPacket listID counterNo :: p1 :: tl /\
     subIndex (header p1) = 1 /\
     (exists more,
        rawData (payload p1) = elementBytes raw element ++ more) /\
     (Forall (fun x => 0 <= elementByteLength x) rest ->
      p1 = withElement (withSubIndex (getEmptyPacket listID counterNo) 1)
             (elementByteLength element) (elementBytes raw element))) /\
  (subIndex (header (getEmptyPacket listID counterNo)) = 0 /\
   variableCount (header (getEmptyPacket listID counterNo)) = 0 /\
   packetLength (header (getEmptyPacket listID counterNo)) = 20 /\
   payloadLength (header (getEmptyPacket listID counterNo)) = 0 /\
   rawData (payload (getEmptyPacket listID counterNo)) = []) /\
  (forall (packets : list Packet) packet,
     payloadLength (header packet) = 0 ->
     addElement listID counterNo raw (packets, packet) element
     = (packets ++ [packet],
        withElement
          (withSubIndex (getEmptyPacket listID counterNo)
             (subIndex (header packet) + 1))
          (elementByteLength element) (elementBytes raw element))).
Proof.
  intros Hbig.
  assert (forall (packets : list Packet) packet,
     payloadLength (header packet) = 0 ->
     addElement listID counterNo raw (packets, packet) element
     = (packets ++ [packet],
        withElement
          (withSubIndex (getEmptyPacket listID counterNo)
             (subIndex (header packet) + 1))
          (elementByteLength element) (elementBytes raw element)))
    as Hstep.
  { intros packets packet H0. rewrite addElement_cases, H0.
    by replace (0 + elementByteLength element >? 256) with true
      by (symmetry; apply Z.gtb_lt; lia). }
  split; [|split; [done|exact Hstep]].
  set (q := withElement (withSubIndex (getEmptyPacket listID counterNo) 1)
              (elementByteLength element) (elementBytes raw element)).
  rewrite splitToPackets_unfold. cbn [foldl].
  rewrite (Hstep [] (getEmptyPacket listID counterNo)) by done.
  change (subIndex (header (getEmptyPacket listID counterNo)) + 1) with 1.
  fold q. cbn [app].
  destruct (foldl_addElement_continues listID counterNo raw rest
              [getEmptyPacket listID counterNo] q)
    as (p1 & tl & Heq & Hsub & more & Hmore).
  exists p1, tl. split; [exact Heq|]. split; [by rewrite Hsub|].
  split.
  { exists more. rewrite Hmore. unfold q.
    by rewrite payload_withElement. }
  intros Hpos. destruct rest as [|x rest].
  - cbn in Heq. by injection Heq as <- _.
  - apply Forall_cons in Hpos as [Hx _].
    cbn [foldl] in Heq. rewrite addElement_cases in Heq.
    replace (payloadLength (header q) + elementByteLength x >? 256)
      with true in Heq by (symmetry; apply Z.gtb_lt; cbn; lia).
    destruct (foldl_addElement_prefix listID counterNo raw rest
                ([getEmptyPacket listID counterNo] ++ [q])
                (withElement
                   (withSubIndex (getEmptyPacket listID counterNo)
                      (subIndex (header q) + 1))
                   (elementByteLength x) (elementBytes raw x)))
      as [tl' Hpre].
    rewrite Hpre in Heq. cbn in Heq. by injection Heq as <- _.
Qed.

End Packetizer.

(** *** Examples of the send path *)

Lemma split_then_concat_is_identity_witness :
  tiling 0 fieldsOf300 (Buffer_byteLength message300) /\
  concat (payloads (splitToPackets 50 7 message300 fieldsOf300))
    = message300 /\
  map (fun p => (subIndex (header p), counter (header p),
                 payloadLength (header p)))
    (splitToPackets 50 7 message300 fieldsOf300)
    = [(0, 7, 256); (1, 7, 44)].
Proof.
  assert (tiling 0 fieldsOf300 (Buffer_byteLength message300)) as Htile
    by (cbn; repeat split; lia).
  split; [exact Htile|]. split; [|reflexivity].
  exact (proj1 (split_then_concat_is_identity (Value := Buffer)
                  50 7 message300 fieldsOf300 Htile)).
Defined.

Lemma oversized_first_field_emits_empty_packet_witness :
  256 < elementByteLength oversizedField /\
  exists p1,
    splitToPackets 50 7 message300 [oversizedField]
    = [getEmptyPacket 50 7; p1] /\
    subIndex (header p1) = 1 /\
    variableCount (header p1) = 1 /\
    packetLength (header p1) = 320 /\
    rawData (payload p1) = message300.
Proof.
  split; [cbn; lia|].
  destruct (proj1 (oversized_first_field_emits_empty_packet
                     50 7 message300 oversizedField [] ltac:(cbn; lia)))
    as (p1 & tl & Heq & Hsub & _ & Hexact).
  specialize (Hexact (List.Forall_nil _)). subst p1.
  eexists. split; [reflexivity|]. repeat split.
Defined.

(** * Further properties of the header codec *)

Lemma byteToZ_byteOfZ_mod (z : Z) : byteToZ (byteOfZ z) = z mod 256.
Proof.
  pose proof (Z.mod_pos_bound z 256 ltac:(lia)) as Hm.
  unfold byteToZ, byteOfZ.
  destruct (Byte.of_N (Z.to_N (z mod 256))) as [b|] eqn:Hof; simpl.
  - apply Byte.to_of_N in Hof. rewrite Hof. lia.
  - apply Byte.of_N_None_iff in Hof. lia.
Qed.

Lemma byteOfZ_byteToZ (b : byte) : byteOfZ (byteToZ b) = b.
Proof.
  pose proof (byteToZ_range b) as Hb.
  unfold byteOfZ. rewrite Z.mod_small by done.
  unfold byteToZ. rewrite N2Z.id, Byte.of_to_N. done.
Qed.

Lemma byteOfZ_eq (z : Z) (b : byte) :
  z mod 256 = byteToZ b -> byteOfZ z = b.
Proof.
  intros Hz. rewrite <- (byteOfZ_byteToZ b). unfold byteOfZ.
  rewrite Hz. by rewrite (Z.mod_small (byteToZ b)) by apply byteToZ_range.
Qed.

Lemma bind_Throw {A B : Type} (m : Completion A) (f : A -> Completion B)
    (e : JsError) :
  m ≫= f = Throw e ->
  m = Throw e \/ exists a, m = Normal a /\ f a = Throw e.
Proof.
  destruct m as [a|e']; cbn; [eauto|]. intros [= ->]. by left.
Qed.

Lemma writeUInt8_Throw (v : Z) (off : nat) (b : Buffer) (e : JsError) :
  writeUInt8 v off b = Throw e -> e = RangeError.
Proof.
  unfold writeUInt8. repeat case_match; congruence.
Qed.

Lemma writeUInt16LE_Throw (v : Z) (off : nat) (b : Buffer) (e : JsError) :
  writeUInt16LE v off b = Throw e -> e = RangeError.
Proof.
  unfold writeUInt16LE. repeat case_match; congruence.
Qed.

Lemma writeUInt32LE_Throw (v : Z) (off : nat) (b : Buffer) (e : JsError) :
  writeUInt32LE v off b = Throw e -> e = RangeError.
Proof.
  unfold writeUInt32LE. repeat case_match; congruence.
Qed.

Lemma createPacketHeader_Throw (packet : Packet) (e : JsError) :
  createPacketHeader packet = Throw e -> e = RangeError.
Proof.
  unfold createPacketHeader. intros H.
  repeat (apply bind_Throw in H as [H|[? [_ H]]];
          [eauto using writeUInt8_Throw, writeUInt16LE_Throw,
                       writeUInt32LE_Throw|]).
  discriminate.
Qed.

(** The ranges that the writers accept. *)
Lemma writeUInt8_range (v : Z) (off : nat) (b b' : Buffer) :
  writeUInt8 v off b = Normal b' -> 0 <= v <= 255.
Proof. intros H. by apply writeUInt8_Normal in H as [? _]. Qed.

Lemma writeUInt16LE_range (v : Z) (off : nat) (b b' : Buffer) :
  writeUInt16LE v off b = Normal b' -> 0 <= v <= 65535.
Proof.
  unfold writeUInt16LE.
  destruct ((0 <=? v) && (v <=? 65535)) eqn:Hv; [|discriminate].
  intros _. apply andb_true_iff in Hv as [H0 H1]. lia.
Qed.

Lemma writeUInt32LE_range (v : Z) (off : nat) (b b' : Buffer) :
  writeUInt32LE v off b = Normal b' -> 0 <= v <= 4294967295.
Proof.
  unfold writeUInt32LE.
  destruct ((0 <=? v) && (v <=? 4294967295)) eqn:Hv; [|discriminate].
  intros _. apply andb_true_iff in Hv as [H0 H1]. lia.
Qed.

Lemma createPacketHeader_in_range (packet : Packet) (d : Buffer) :
  createPacketHeader packet = Normal d -> header_in_range (header packet).
Proof.
  unfold createPacketHeader. intros H.
  repeat (apply bind_Normal in H as [? [?Hw H]]).
  apply writeUInt32LE_range in Hw. apply writeUInt16LE_range in Hw0.
  apply writeUInt16LE_range in Hw1. apply writeUInt16LE_range in Hw2.
  apply writeUInt16LE_range in Hw3. apply writeUInt16LE_range in Hw4.
  apply writeUInt8_range in Hw5. apply writeUInt8_range in Hw6.
  done.
Qed.

Lemma range_check (v hi : Z) :
  0 <= v <= hi -> (0 <=? v) && (v <=? hi) = true.
Proof. intros Hv. apply andb_true_iff. split; apply Z.leb_le; lia. Qed.

(** The header bytes that the encoder returns, when every field is in
    range: the identity (up to twenty bytes of it) with the fields written
    over it from offset 4 on. *)
Lemma createPacketHeader_ok (packet : Packet) :
  header_in_range (header packet) ->
  exists b0 b1 b2 b3 : byte,
    take 4 (Buffer_copy (identity (header packet)) (Buffer_alloc 20) 0)
      = [b0; b1; b2; b3] /\
    createPacketHeader packet = Normal
      [b0; b1; b2; b3;
       byteOfZ (type (header packet));
       byteOfZ (type (header packet) / 256);
       byteOfZ (type (header packet) / 65536);
       byteOfZ (type (header packet) / 16777216);
       byteOfZ (index (header packet));
       byteOfZ (index (header packet) / 256);
       byteOfZ (subIndex (header packet));
       byteOfZ (subIndex (header packet) / 256);
       byteOfZ (variableCount (header packet));
       byteOfZ (variableCount (header packet) / 256);
       byteOfZ (packetLength (header packet));
       byteOfZ (packetLength (header packet) / 256);
       byteOfZ (counter (header packet));
       byteOfZ (counter (header packet) / 256);
       byteOfZ (flags (header packet));
       byteOfZ (checksum (header packet))].
Proof.
  intros (Ht & Hi & Hs & Hv & Hp & Hc & Hf & Hk).
  unfold createPacketHeader.
  pose proof (Buffer_copy_length (identity (header packet))
                (Buffer_alloc 20) 0) as Hlen.
  change (length (Buffer_alloc 20)) with 20%nat in Hlen.
  destruct (Buffer_copy (identity (header packet)) (Buffer_alloc 20) 0)
    as [|b0 [|b1 [|b2 [|b3 [|b4 [|b5 [|b6 [|b7 [|b8 [|b9 [|b10 [|b11
        [|b12 [|b13 [|b14 [|b15 [|b16 [|b17 [|b18 [|b19 [|b20 tl]]]]]]]]]
        ]]]]]]]]]]]]; try discriminate.
  exists b0, b1, b2, b3. split; [done|].
  unfold writeUInt32LE, writeUInt16LE, writeUInt8. cbn.
  rewrite !range_check by done. done.
Qed.

Lemma slice_prefix (data : Buffer) (n : nat) :
  (n <= length data)%nat -> slice data 0 (Z.of_nat n) = take n data.
Proof.
  intros Hn. unfold slice, clampIndex, Buffer_byteLength.
  replace (Z.of_nat n <? 0) with false by (symmetry; apply Z.ltb_ge; lia).
  cbn [Z.ltb Z.compare]. rewrite !Z.min_l by lia.
  rewrite Z.sub_0_r, Nat2Z.id. done.
Qed.

Lemma le16_bytes (v : Z) :
  0 <= v <= 65535 -> v mod 256 + 256 * ((v / 256) mod 256) = v.
Proof. intros Hv. Z.to_euclidean_division_equations. lia. Qed.

Lemma le32_bytes (v : Z) :
  0 <= v <= 4294967295 ->
  v mod 256 + 256 * ((v / 256) mod 256)
  + 65536 * ((v / 65536) mod 256) + 16777216 * ((v / 16777216) mod 256) = v.
Proof. intros Hv. Z.to_euclidean_division_equations. lia. Qed.

Lemma parseReceivedPacketHeader_created (packet : Packet) (d rest : Buffer) :
  createPacketHeader packet = Normal d ->
  exists h,
    parseReceivedPacketHeader (d ++ rest) = Normal h /\
    hdrRawData h = d /\
    (length (identity (header packet)) = 4%nat ->
     identity h = identity (header packet)) /\
    type h = type (header packet) /\
    index h = index (header packet) /\
    subIndex h = subIndex (header packet) /\
    variableCount h = variableCount (header packet) /\
    packetLength h = packetLength (header packet) /\
    counter h = counter (header packet) /\
    flags h = flags (header packet) /\
    flagsStr h = parseHeaderFlags (flags (header packet)) /\
    checksum h = checksum (header packet) /\
    payloadLength h = packetLength (header packet) - 20.
Proof.
  intros Henc.
  pose proof (createPacketHeader_in_range packet d Henc) as Hrange.
  destruct (createPacketHeader_ok packet Hrange)
    as (b0 & b1 & b2 & b3 & Hid & Hok).
  rewrite Henc in Hok. injection Hok as ->.
  destruct Hrange as (Ht & Hi & Hs & Hv & Hp & Hc & Hf & Hk).
  eexists. split.
  { unfold parseReceivedPacketHeader, readUInt32LE, readUInt16LE, readUInt8.
    cbn [lookup list_lookup app Nat.add mbind mret Completion_bind
         Completion_ret].
    reflexivity. }
  cbn [hdrRawData identity type index subIndex variableCount packetLength
       counter flags flagsStr checksum payloadLength].
  rewrite !byteToZ_byteOfZ_mod.
  rewrite (slice_header _) by (cbn [length]; lia).
  rewrite (slice_prefix _ 4) by (cbn [length]; lia).
  rewrite le32_bytes by done. rewrite !le16_bytes by done.
  rewrite !Z.mod_small by lia.
  repeat split; try done.
  intros Hlen.
  destruct (identity (header packet)) as [|i0 [|i1 [|i2 [|i3 [|i4 tl]]]]];
    try discriminate.
  cbn in Hid. injection Hid as <- <- <- <-. done.
Qed.

(** X1: a header that the encoder returns is decoded to the same fields,
    whatever payload follows it. *)
Theorem header_encode_decode (packet : Packet) (d rest : Buffer) :
  createPacketHeader packet = Normal d ->
  exists h,
    parseReceivedPacketHeader (d ++ rest) = Normal h /\
    hdrRawData h = d /\
    (length (identity (header packet)) = 4%nat ->
     identity h = identity (header packet)) /\
    type h = type (header packet) /\
    index h = index (header packet) /\
    subIndex h = subIndex (header packet) /\
    variableCount h = variableCount (header packet) /\
    packetLength h = packetLength (header packet) /\
    counter h = counter (header packet) /\
    flags h = flags (header packet) /\
    flagsStr h = parseHeaderFlags (flags (header packet)) /\
    checksum h = checksum (header packet) /\
    payloadLength h = packetLength (header packet) - 20.
Proof. apply parseReceivedPacketHeader_created. Qed.

(** X2: the encoder returns a header of twenty bytes exactly when every
    field fits the width that it is written with; otherwise it throws a
    RangeError. *)
Theorem createPacketHeader_accepts_fields_in_range (packet : Packet) :
  (header_in_range (header packet) ->
   exists d, createPacketHeader packet = Normal d /\ length d = 20%nat) /\
  (~ header_in_range (header packet) ->
   createPacketHeader packet = Throw RangeError).
Proof.
  split.
  - intros Hrange.
    destruct (createPacketHeader_ok packet Hrange)
      as (b0 & b1 & b2 & b3 & _ & Hok).
    eexists. split; [exact Hok|done].
  - intros Hout.
    destruct (createPacketHeader packet) as [d|e] eqn:Henc.
    + exfalso. apply Hout. by eapply createPacketHeader_in_range.
    + by rewrite (createPacketHeader_Throw packet e Henc).
Qed.

Lemma header_encode_decode_witness :
  createPacketHeader flaggedPacket = Normal flaggedPacketBytes /\
  exists h,
    parseReceivedPacketHeader (flaggedPacketBytes ++ [x03; x04; x05])
      = Normal h /\
    index h = 50 /\ counter h = 5 /\ flags h = 1 /\ checksum h = 2 /\
    payloadLength h = 0.
Proof.
  split; [reflexivity|].
  destruct (header_encode_decode flaggedPacket flaggedPacketBytes
              [x03; x04; x05] eq_refl)
    as (h & Hh & _ & _ & _ & Hi & _ & _ & _ & Hc & Hf & _ & Hk & Hp).
  exists h. repeat split; assumption.
Defined.

Lemma land_pow2 (f k : Z) :
  0 <= k -> (Z.land f (2 ^ k) = 2 ^ k <-> Z.testbit f k = true).
Proof.
  intros Hk. split.
  - intros Hl. apply (f_equal (fun x => Z.testbit x k)) in Hl.
    rewrite Z.land_spec, Z.pow2_bits_true in Hl by done.
    by rewrite andb_true_r in Hl.
  - intros Hb. apply Z.bits_inj'. intros n Hn.
    rewrite Z.land_spec, Z.pow2_bits_eqb by done.
    destruct (Z.eqb_spec k n) as [->|Hne].
    + by rewrite Hb.
    + by rewrite andb_false_r.
Qed.

(** Membership of a flag name in a list of names that is written out. *)
Ltac flag_member :=
  split;
  [ let Hin := fresh "Hin" in
    intros Hin;
    first
      [ assumption
      | exfalso;
        repeat (apply elem_of_cons in Hin as [Hin|Hin]; [discriminate|]);
        by apply elem_of_nil in Hin ]
  | let Heq := fresh "Heq" in
    intros Heq; first [contradiction | repeat constructor] ].

(** X3: the names of the flags follow the bits of the flags value: bit 0
    is the acknowledgement request, bit 1 the included checksum, bit 2 the
    invalid checksum; no other bit gives a name. *)
Theorem parseHeaderFlags_bits (f : Z) :
  (SendAckRequested ∈ parseHeaderFlags f <-> Z.testbit f 0 = true) /\
  (ChecksumIncluded ∈ parseHeaderFlags f <-> Z.testbit f 1 = true) /\
  (InvalidChecksum ∈ parseHeaderFlags f <-> Z.testbit f 2 = true) /\
  (Z.land f 7 = 0 -> parseHeaderFlags f = []).
Proof.
  pose proof (land_pow2 f 0 ltac:(lia)) as Hbit0.
  pose proof (land_pow2 f 1 ltac:(lia)) as Hbit1.
  pose proof (land_pow2 f 2 ltac:(lia)) as Hbit2.
  change (2 ^ 0) with 1 in Hbit0. change (2 ^ 1) with 2 in Hbit1.
  change (2 ^ 2) with 4 in Hbit2.
  unfold parseHeaderFlags.
  split; [|split; [|split]].
  - rewrite <- Hbit0. clear Hbit0 Hbit1 Hbit2.
    destruct (Z.eqb_spec (Z.land f 1) 1), (Z.eqb_spec (Z.land f 2) 2),
      (Z.eqb_spec (Z.land f 4) 4); cbn; flag_member.
  - rewrite <- Hbit1. clear Hbit0 Hbit1 Hbit2.
    destruct (Z.eqb_spec (Z.land f 1) 1), (Z.eqb_spec (Z.land f 2) 2),
      (Z.eqb_spec (Z.land f 4) 4); cbn; flag_member.
  - rewrite <- Hbit2. clear Hbit0 Hbit1 Hbit2.
    destruct (Z.eqb_spec (Z.land f 1) 1), (Z.eqb_spec (Z.land f 2) 2),
      (Z.eqb_spec (Z.land f 4) 4); cbn; flag_member.
  - intros H7.
    assert (forall k, 0 <= k < 3 -> Z.testbit f k = false) as Hbits.
    { intros k Hk.
      apply (f_equal (fun x => Z.testbit x k)) in H7.
      rewrite Z.land_spec, Z.bits_0 in H7.
      change 7 with (Z.ones 3) in H7.
      rewrite Z.ones_spec_low in H7 by done.
      by rewrite andb_true_r in H7. }
    destruct (Z.eqb_spec (Z.land f 1) 1) as [E|_];
      [apply Hbit0 in E; rewrite Hbits in E by lia; discriminate|].
    destruct (Z.eqb_spec (Z.land f 2) 2) as [E|_];
      [apply Hbit1 in E; rewrite Hbits in E by lia; discriminate|].
    destruct (Z.eqb_spec (Z.land f 4) 4) as [E|_];
      [apply Hbit2 in E; rewrite Hbits in E by lia; discriminate|].
    done.
Qed.

(** Solves [byteOfZ v = b] where [v] is built from bytes. *)
Ltac byte_of_sum :=
  apply byteOfZ_eq;
  repeat match goal with
         | |- context [byteToZ ?x] =>
             lazymatch goal with
             | _ : 0 <= byteToZ x < 256 |- _ => fail
             | _ => pose proof (byteToZ_range x)
             end
         end;
  Z.to_euclidean_division_equations; lia.

(** X4: a header that the decoder returns is in range, and the encoder
    turns it back into the first twenty bytes of the datagram: every byte
    of the header belongs to one field. *)
Theorem header_decode_encode (data : Buffer) (h : PacketHeader) :
  parseReceivedPacketHeader data = Normal h ->
  header_in_range h /\
  forall bytes raw : Buffer,
    createPacketHeader (packetOfHeader h bytes raw) = Normal (take 20 data).
Proof.
  intros Hdec.
  assert (20 <= length data)%nat as Hlen.
  { destruct (le_lt_dec 20 (length data)) as [|Hshort]; [done|].
    rewrite parseReceivedPacketHeader_short in Hdec by done. discriminate. }
  destruct data
    as [|x0 [|x1 [|x2 [|x3 [|x4 [|x5 [|x6 [|x7 [|x8 [|x9 [|x10 [|x11
        [|x12 [|x13 [|x14 [|x15 [|x16 [|x17 [|x18 [|x19 tl]]]]]]]]]
        ]]]]]]]]]]]; cbn [length] in Hlen; try lia.
  clear Hlen.
  unfold parseReceivedPacketHeader, readUInt32LE, readUInt16LE, readUInt8
    in Hdec.
  cbn [lookup list_lookup app Nat.add mbind mret Completion_bind
       Completion_ret] in Hdec.
  injection Hdec as <-.
  assert (header_in_range
    {| hdrRawData :=
         slice (x0 :: x1 :: x2 :: x3 :: x4 :: x5 :: x6 :: x7 :: x8 :: x9
                :: x10 :: x11 :: x12 :: x13 :: x14 :: x15 :: x16 :: x17
                :: x18 :: x19 :: tl) 0 20;
       identity :=
         slice (x0 :: x1 :: x2 :: x3 :: x4 :: x5 :: x6 :: x7 :: x8 :: x9
                :: x10 :: x11 :: x12 :: x13 :: x14 :: x15 :: x16 :: x17
                :: x18 :: x19 :: tl) (Z.of_nat 0) 4;
       type := byteToZ x4 + 256 * byteToZ x5 + 65536 * byteToZ x6
               + 16777216 * byteToZ x7;
       index := byteToZ x8 + 256 * byteToZ x9;
       subIndex := byteToZ x10 + 256 * byteToZ x11;
       variableCount := byteToZ x12 + 256 * byteToZ x13;
       packetLength := byteToZ x14 + 256 * byteToZ x15;
       counter := byteToZ x16 + 256 * byteToZ x17;
       flags := byteToZ x18;
       flagsStr := parseHeaderFlags (byteToZ x18);
       checksum := byteToZ x19;
       payloadLength := byteToZ x14 + 256 * byteToZ x15 - 20 |})
    as Hrange.
  { pose proof (byteToZ_range x4). pose proof (byteToZ_range x5).
    pose proof (byteToZ_range x6). pose proof (byteToZ_range x7).
    pose proof (byteToZ_range x8). pose proof (byteToZ_range x9).
    pose proof (byteToZ_range x10). pose proof (byteToZ_range x11).
    pose proof (byteToZ_range x12). pose proof (byteToZ_range x13).
    pose proof (byteToZ_range x14). pose proof (byteToZ_range x15).
    pose proof (byteToZ_range x16). pose proof (byteToZ_range x17).
    pose proof (byteToZ_range x18). pose proof (byteToZ_range x19).
    unfold header_in_range. cbn. lia. }
  split; [exact Hrange|]. intros bytes raw.
  destruct (createPacketHeader_ok (packetOfHeader _ bytes raw) Hrange)
    as (b0 & b1 & b2 & b3 & Hid & ->).
  cbn [packetOfHeader header identity] in Hid.
  rewrite (slice_prefix _ 4) in Hid by (cbn [length]; lia).
  cbn in Hid. injection Hid as <- <- <- <-.
  cbn [packetOfHeader header type index subIndex variableCount
       packetLength counter flags checksum take].
  f_equal. repeat (f_equal; try byte_of_sum).
Qed.

Lemma header_decode_encode_witness :
  parseReceivedPacketHeader flaggedDatagram = Normal flaggedDatagramHeader /\
  header_in_range flaggedDatagramHeader /\
  createPacketHeader (packetOfHeader flaggedDatagramHeader [] [])
    = Normal (take 20 flaggedDatagram).
Proof.
  split; [reflexivity|].
  destruct (header_decode_encode flaggedDatagram flaggedDatagramHeader
              eq_refl) as [Hrange Henc].
  split; [exact Hrange|apply Henc].
Defined.

(** * Further properties of the receive path *)

Section ReceiveMore.

Context {Value : Type}.
Implicit Types (r : Receiver Value) (log : list (Event Value)).
Implicit Types (e : PacketBufferEntry) (packet : Packet).



(** X6: a fragment for a list without listener never calls a callback and
    leaves no entry for the list, whatever the buffer held for it. *)
Theorem unregistered_list_keeps_nothing packet r log :
  receiver_wf r ->
  listenersFor r (index (header packet)) = [] ->
  exists r',
    handleReceivedPacket packet r log = (Normal tt, r', log) /\
    packetBuffer r' !! index (header packet) = None /\
    handlers r' = handlers r /\
    receiver_wf r'.
Proof.
  intros Hwf Hl. unfold handleReceivedPacket. eff.
  assert (forall r1 ref,
            handlers r1 = handlers r -> receiver_wf r1 ->
            exists r',
              checkReceivedPacket (index (header packet)) ref r1 log
                = (Normal tt, r', log) /\
              packetBuffer r' !! index (header packet) = None /\
              handlers r' = handlers r /\ receiver_wf r') as Hcheck.
  { intros r1 ref Hh Hwf1.
    rewrite checkReceivedPacket_unregistered
      by (unfold listenersFor in *; by rewrite Hh).
    eexists. split; [done|]. split; [cbn; by rewrite lookup_delete_eq|].
    split; [done|]. by apply receiver_wf_dropEntry. }
  destruct (packetBuffer r !! index (header packet)) as [ref|] eqn:Hpb.
  - destruct (proj2 Hwf _ _ Hpb) as [e Ho].
    pose proof (proj1 (proj1 Hwf _ _ Ho)) as He.
    destruct (decide (entryCounter e = counter (header packet)))
      as [Hc|Hc].
    + destruct (entry_wf_is_last e He) as [lastp Hlast].
      rewrite (ingestFragment_continue packet r log ref e lastp) by done.
      destruct (subIndex (header packet) =? subIndex (header lastp) + 1)
        eqn:Hk.
      * apply Hcheck; [done|].
        apply (receiver_wf_storeEntry _ _ e); [done|done|].
        apply Z.eqb_eq in Hk. by eapply entry_wf_withPacket.
      * eexists. split; [done|].
        split; [cbn; by rewrite lookup_delete_eq|]. split; [done|].
        by apply receiver_wf_dropEntry.
    + rewrite (ingestFragment_restart packet r log ref e) by done.
      cbv zeta.
      assert (receiver_wf
                (if handled e then r
                 else dropEntry r (index (header packet)))) as Hwf1
        by (destruct (handled e); [done|by apply receiver_wf_dropEntry]).
      assert (handlers (if handled e then r
                        else dropEntry r (index (header packet)))
              = handlers r) as Hh1 by (by destruct (handled e)).
      destruct (subIndex (header packet) =? 0) eqn:Hk.
      * apply Hcheck; [done|].
        apply Z.eqb_eq in Hk. by apply receiver_wf_startEntry.
      * by apply Hcheck.
  - rewrite ingestFragment_absent by done.
    destruct (subIndex (header packet) =? 0) eqn:Hk.
    + apply Hcheck; [done|].
      apply Z.eqb_eq in Hk. by apply receiver_wf_startEntry.
    + by exists r.
Qed.

(** *** One list at a time *)

Lemma owns_startEntry r packet :
  receiver_wf r ->
  owns (startEntry r packet) (index (header packet)) (nextRef r).
Proof.
  intros [Hobj Hpb] i Hi. cbn in Hi.
  apply lookup_insert_Some in Hi as [[Heq _]|[_ Hi]]; [done|].
  destruct (Hpb _ _ Hi) as [e He]. destruct (Hobj _ _ He). lia.
Qed.

Lemma owns_packetBuffer r (idx : Z) (ref : Ref) :
  separated r -> packetBuffer r !! idx = Some ref -> owns r idx ref.
Proof. intros Hsep Hpb i Hi. by eapply Hsep. Qed.

Lemma owns_dropEntry r (idx : Z) (ref : Ref) :
  separated r -> packetBuffer r !! idx = Some ref ->
  owns (dropEntry r idx) idx ref.
Proof.
  intros Hsep Hpb i Hi. cbn in Hi.
  apply lookup_delete_Some in Hi as [_ Hi]. by eapply Hsep.
Qed.

(** The updates of one call keep the invariants and leave the entries of
    the other lists alone. *)
Lemma evolves_frame (idx : Z) r r' :
  evolves idx r r' ->
  receiver_wf r -> separated r ->
  receiver_wf r' /\ separated r' /\ handlers r' = handlers r /\
  (forall idx', idx' <> idx -> bufferEntry r' idx' = bufferEntry r idx').
Proof.
  intros Hev Hwf Hsep.
  induction Hev as [|r1 Hev IH|r1 packet Hev IH Hidx Hk
                   |r1 ref e0 e Hev IH Ho Hown He].
  - done.
  - destruct IH as (Hwf1 & Hsep1 & Hh1 & Hother).
    split; [by apply receiver_wf_dropEntry|]. split; [|split; [done|]].
    + intros i j ref Hi Hj. cbn in Hi, Hj.
      apply lookup_delete_Some in Hi as [_ Hi].
      apply lookup_delete_Some in Hj as [_ Hj].
      by eapply Hsep1.
    + intros idx' Hne. rewrite <- Hother by done.
      unfold bufferEntry. cbn. by rewrite lookup_delete_ne.
  - destruct IH as (Hwf1 & Hsep1 & Hh1 & Hother).
    pose proof (owns_startEntry r1 packet Hwf1) as Hown.
    split; [by apply receiver_wf_startEntry|]. split; [|split; [done|]].
    + intros i j ref Hi Hj. cbn in Hi, Hj.
      apply lookup_insert_Some in Hi as [[<- <-]|[Hni Hi]].
      * symmetry. by apply Hown.
      * apply lookup_insert_Some in Hj as [[<- <-]|[Hnj Hj]].
        -- apply Hown. cbn. by rewrite lookup_insert_ne.
        -- by eapply Hsep1.
    + intros idx' Hne. rewrite <- Hother by done.
      unfold bufferEntry. cbn. rewrite lookup_insert_ne by congruence.
      destruct (packetBuffer r1 !! idx') as [ref'|] eqn:Hpb; [|done].
      cbn. rewrite lookup_insert_ne; [done|].
      destruct (proj2 Hwf1 _ _ Hpb) as [e' He'].
      destruct (proj1 Hwf1 _ _ He'). lia.
  - destruct IH as (Hwf1 & Hsep1 & Hh1 & Hother).
    split; [by apply (receiver_wf_storeEntry _ _ e0)|].
    split; [done|]. split; [done|].
    intros idx' Hne. rewrite <- Hother by done.
    unfold bufferEntry. cbn.
    destruct (packetBuffer r1 !! idx') as [ref'|] eqn:Hpb; [|done].
    cbn. rewrite lookup_insert_ne; [done|].
    intros <-. apply Hne. by apply Hown.
Qed.

Lemma checkReceivedPacket_evolves (idx : Z) (ref : Ref) r0 r log e :
  evolves idx r0 r ->
  objects r !! ref = Some e -> entry_wf e -> owns r idx ref ->
  exists r' log',
    checkReceivedPacket idx ref r log = (Normal tt, r', log') /\
    evolves idx r0 r'.
Proof.
  intros Hev Ho He Hown.
  destruct (checkReceivedPacket_cases idx ref r log e Ho)
    as [[_ ->]|[[_ [log' ->]]|[_ ->]]]; do 2 eexists; (split; [done|]).
  - by constructor.
  - eapply evolves_store; eauto using entry_wf_withHandled.
  - done.
Qed.

Lemma handleReceivedPacket_evolves packet r log :
  receiver_wf r -> separated r ->
  exists r' log',
    handleReceivedPacket packet r log = (Normal tt, r', log') /\
    evolves (index (header packet)) r r'.
Proof.
  intros Hwf Hsep. unfold handleReceivedPacket. eff.
  assert (forall r1,
            evolves (index (header packet)) r r1 -> receiver_wf r1 ->
            subIndex (header packet) = 0 ->
            exists r' log',
              checkReceivedPacket (index (header packet)) (nextRef r1)
                (startEntry r1 packet) log = (Normal tt, r', log') /\
              evolves (index (header packet)) r r') as Hstart.
  { intros r1 Hev Hwf1 Hk.
    apply (checkReceivedPacket_evolves _ _ _ _ _ (freshEntry packet)).
    - by constructor.
    - cbn. by rewrite lookup_insert_eq.
    - by apply entry_wf_freshEntry.
    - by apply owns_startEntry. }
  destruct (packetBuffer r !! index (header packet)) as [ref|] eqn:Hpb.
  - destruct (proj2 Hwf _ _ Hpb) as [e Ho].
    pose proof (proj1 (proj1 Hwf _ _ Ho)) as He.
    pose proof (owns_packetBuffer r _ ref Hsep Hpb) as Hown.
    destruct (decide (entryCounter e = counter (header packet)))
      as [Hc|Hc].
    + destruct (entry_wf_is_last e He) as [lastp Hlast].
      rewrite (ingestFragment_continue packet r log ref e lastp) by done.
      destruct (subIndex (header packet) =? subIndex (header lastp) + 1)
        eqn:Hk.
      * apply Z.eqb_eq in Hk.
        assert (entry_wf (withPacket e packet)) as He1
          by (by eapply entry_wf_withPacket).
        apply (checkReceivedPacket_evolves _ _ _ _ _ (withPacket e packet));
          [|cbn; by rewrite lookup_insert_eq|done|done].
        eapply evolves_store; eauto. constructor.
      * do 2 eexists. split; [done|]. do 2 constructor.
    + rewrite (ingestFragment_restart packet r log ref e) by done.
      cbv zeta.
      destruct (subIndex (header packet) =? 0) eqn:Hk.
      * apply Z.eqb_eq in Hk. destruct (handled e).
        -- apply Hstart; [constructor|done|done].
        -- apply Hstart;
             [do 2 constructor|by apply receiver_wf_dropEntry|done].
      * destruct (handled e).
        -- apply (checkReceivedPacket_evolves _ _ _ _ _ e);
             [constructor|done|done|done].
        -- apply (checkReceivedPacket_evolves _ _ _ _ _ e);
             [do 2 constructor|done|done|by apply owns_dropEntry].
  - rewrite ingestFragment_absent by done.
    destruct (subIndex (header packet) =? 0) eqn:Hk.
    + apply Z.eqb_eq in Hk. apply Hstart; [constructor|done|done].
    + do 2 eexists. split; [done|]. constructor.
Qed.

(** X7: a fragment for one list leaves the entries of all other lists as
    they are; no two lists ever share an entry object. *)
Theorem other_lists_are_untouched packet r log :
  receiver_wf r -> separated r ->
  exists r' log',
    handleReceivedPacket packet r log = (Normal tt, r', log') /\
    (forall idx', idx' <> index (header packet) ->
                  bufferEntry r' idx' = bufferEntry r idx') /\
    receiver_wf r' /\ separated r'.
Proof.
  intros Hwf Hsep.
  destruct (handleReceivedPacket_evolves packet r log Hwf Hsep)
    as (r' & log' & Hrun & Hev).
  destruct (evolves_frame _ _ _ Hev Hwf Hsep) as (Hwf' & Hsep' & _ & Hother).
  exists r', log'. done.
Qed.


(** *** listen and close *)

(** X9: on a receiver without socket [listen] creates one socket; when
    the bind succeeds it resolves with the data listener attached, when the
    bind fails it rejects and the receiver keeps the socket, so that every
    further [listen] is rejected as already connected, until [close]. *)
Theorem listen_after_failed_bind_needs_close
    (env env' : BindOutcome) r :
  socket r = None ->
  (env = BindSucceeds ->
   listen env r
   = (Resolved, withSocket r (Some {| messageListener := true |}),
      [SocketCreated; SocketBound])) /\
  (env <> BindSucceeds ->
   listen env r
   = (Rejected BindingFailed,
      withSocket r (Some {| messageListener := false |}),
      [SocketCreated]) /\
   listen env' (withSocket r (Some {| messageListener := false |}))
   = (Rejected AlreadyConnected,
      withSocket r (Some {| messageListener := false |}), [])) /\
  socket (fst (close (snd (fst (listen env r))))) = None /\
  fst (fst (listen env' (fst (close (snd (fst (listen env r)))))))
  <> Rejected AlreadyConnected.
Proof.
  intros Hs. unfold listen. rewrite Hs. cbn.
  split; [by intros ->|]. split.
  - intros Hne. by destruct env.
  - destruct env; cbn; split; try done; by destruct env'.
Qed.

(** A receiver without handlers and with an empty packet buffer stays so,
    and calls nobody. *)
Lemma handleReceivedPacket_empty packet r log :
  handlers r = [] -> packetBuffer r = ∅ ->
  exists r',
    handleReceivedPacket packet r log = (Normal tt, r', log) /\
    handlers r' = [] /\ packetBuffer r' = ∅ /\ socket r' = socket r.
Proof.
  intros Hh Hpb. unfold handleReceivedPacket. eff.
  rewrite ingestFragment_absent by (by rewrite Hpb, lookup_empty).
  destruct (subIndex (header packet) =? 0).
  - rewrite checkReceivedPacket_unregistered
      by (unfold listenersFor; cbn; by rewrite Hh).
    eexists. split; [done|]. split; [done|]. split; [|done].
    cbn. rewrite Hpb. apply delete_insert_id, lookup_empty.
  - by exists r.
Qed.

Lemma receiveLoop_empty (datagrams : list Buffer) :
  Forall (fun data => (20 <= length data)%nat) datagrams ->
  forall r log,
    handlers r = [] -> packetBuffer r = ∅ ->
    exists r',
      receiveLoop datagrams r log = (Running r', log) /\
      handlers r' = [] /\ packetBuffer r' = ∅ /\ socket r' = socket r.
Proof.
  induction 1 as [|data datagrams Hlen _ IH]; intros r log Hh Hpb.
  - by exists r.
  - destruct (parsePacket_total data Hlen) as (packet & Hp & _).
    destruct (handleReceivedPacket_empty packet r log Hh Hpb)
      as (r1 & H1 & Hh1 & Hpb1 & Hs1).
    destruct (IH r1 log Hh1 Hpb1) as (r' & H' & Hh' & Hpb' & Hs').
    exists r'. cbn [receiveLoop].
    unfold handleReceivedData, parseReceivedPacket. rewrite Hp, H1.
    split; [done|]. split; [done|]. split; [done|congruence].
Qed.

(** X10: [close] forgets the handlers and the buffered fragments of any
    receiver: after [close] and a new [listen], datagrams call no callback
    and leave the packet buffer empty, until handlers are added again. *)
Theorem close_forgets_handlers_and_fragments
    (env : BindOutcome) (datagrams : list Buffer) r log :
  Forall (fun data => (20 <= length data)%nat) datagrams ->
  handlers (fst (close r)) = [] /\
  packetBuffer (fst (close r)) = ∅ /\
  socket (fst (close r)) = None /\
  exists r',
    receiveLoop datagrams (snd (fst (listen env (fst (close r))))) log
      = (Running r', log) /\
    handlers r' = [] /\ packetBuffer r' = ∅.
Proof.
  intros Hall.
  assert (handlers (fst (close r)) = [] /\
          packetBuffer (fst (close r)) = ∅ /\
          socket (fst (close r)) = None) as (Hh & Hpb & Hs)
    by (unfold close; by destruct (socket r)).
  do 3 (split; [done|]).
  destruct (receiveLoop_empty datagrams Hall
              (snd (fst (listen env (fst (close r))))) log)
    as (r' & H' & Hh' & Hpb' & _).
  - unfold listen. rewrite Hs. by destruct env.
  - unfold listen. rewrite Hs. by destruct env.
  - by exists r'.
Qed.

End ReceiveMore.

(** *** Examples of the further properties of the receive path *)


Lemma unregistered_list_keeps_nothing_witness :
  receiver_wf receiver50 /\
  listenersFor receiver50 60 = [] /\
  exists r',
    handleReceivedPacket (fragment60 0 1 [x01]) receiver50 []
      = (Normal tt, r', []) /\
    packetBuffer r' !! 60 = None.
Proof.
  split; [exact receiver_wf_receiver50|]. split; [reflexivity|].
  destruct (unregistered_list_keeps_nothing (fragment60 0 1 [x01])
              receiver50 [] receiver_wf_receiver50 eq_refl)
    as (r' & Hrun & Hnone & _).
  exists r'. split; [exact Hrun|exact Hnone].
Defined.

Lemma receiver_wf_receiverAccumulating : receiver_wf receiverAccumulating.
Proof.
  apply receiver_wf_startEntry; [exact receiver_wf_receiver50|reflexivity].
Qed.

Lemma separated_receiverAccumulating : separated receiverAccumulating.
Proof.
  intros i j ref Hi Hj. cbn in Hi, Hj.
  apply lookup_insert_Some in Hi as [[<- _]|[_ Hi]];
    [|by rewrite lookup_empty in Hi].
  apply lookup_insert_Some in Hj as [[<- _]|[_ Hj]];
    [done|by rewrite lookup_empty in Hj].
Qed.

Lemma other_lists_are_untouched_witness :
  receiver_wf receiverAccumulating /\
  separated receiverAccumulating /\
  exists r' log',
    handleReceivedPacket (fragment60 0 1 [x01]) receiverAccumulating []
      = (Normal tt, r', log') /\
    bufferEntry r' 50 = Some (freshEntry (fragment 0 5 [x0a; x0b])).
Proof.
  split; [exact receiver_wf_receiverAccumulating|].
  split; [exact separated_receiverAccumulating|].
  destruct (other_lists_are_untouched (fragment60 0 1 [x01])
              receiverAccumulating []
              receiver_wf_receiverAccumulating
              separated_receiverAccumulating)
    as (r' & log' & Hrun & Hother & _).
  exists r', log'. split; [exact Hrun|].
  rewrite (Hother 50) by discriminate. reflexivity.
Defined.


Lemma listen_after_failed_bind_needs_close_witness :
  socket receiver50 = None /\
  listen BindEmitsError receiver50
  = (Rejected BindingFailed,
     withSocket receiver50 (Some {| messageListener := false |}),
     [SocketCreated]) /\
  listen BindSucceeds
    (withSocket receiver50 (Some {| messageListener := false |}))
  = (Rejected AlreadyConnected,
     withSocket receiver50 (Some {| messageListener := false |}), []).
Proof.
  split; [reflexivity|].
  apply (proj1 (proj2 (listen_after_failed_bind_needs_close
                         BindEmitsError BindSucceeds receiver50 eq_refl))).
  discriminate.
Defined.

Lemma close_forgets_handlers_and_fragments_witness :
  Forall (fun data => (20 <= length data)%nat) [firstDatagram] /\
  exists r',
    receiveLoop [firstDatagram]
      (snd (fst (listen BindSucceeds (fst (close receiverAfterFirst))))) []
      = (Running r', []) /\
    handlers r' = [] /\ packetBuffer r' = ∅.
Proof.
  assert (Forall (fun data => (20 <= length data)%nat) [firstDatagram])
    as Hall by (repeat constructor; cbn; lia).
  split; [exact Hall|].
  exact (proj2 (proj2 (proj2 (close_forgets_handlers_and_fragments
                                BindSucceeds [firstDatagram]
                                receiverAfterFirst [] Hall)))).
Defined.

(** * Further properties of the send path *)

Section SendMore.

Context {Value : Type}.
Implicit Types (s : Sender) (p packet : Packet) (raw : Buffer).
Implicit Types (element : IteratedElement).

(** An invariant of the packets that may depend on the elements and on
    the branch of the loop. *)
Lemma foldl_addElement_invariant (P : Packet -> Prop)
    (Q : IteratedElement -> Prop) (listID counterNo : Z) raw :
  (forall p x, Q x -> P p ->
     payloadLength (header p) + elementByteLength x <= 256 ->
     P (withElement p (elementByteLength x) (elementBytes raw x))) ->
  (forall i x, Q x ->
     P (withElement (withSubIndex (getEmptyPacket listID counterNo) i)
          (elementByteLength x) (elementBytes raw x))) ->
  forall elements (packets : list Packet) packet,
    Forall Q elements -> Forall P packets -> P packet ->
    Forall P (fst (foldl (addElement listID counterNo raw)
                     (packets, packet) elements)) /\
    P (snd (foldl (addElement listID counterNo raw)
              (packets, packet) elements)).
Proof.
  intros Hsame Hnew elements.
  induction elements as [|x elements IH];
    intros packets packet HQ Hps Hp; [done|].
  apply Forall_cons in HQ as [Hx HQ].
  cbn [foldl]. rewrite addElement_cases.
  destruct (payloadLength (header packet) + elementByteLength x >? 256)
    eqn:Hcmp.
  - apply IH; [done| |by apply Hnew].
    apply Forall_app. split; [done|]. by constructor.
  - apply IH; [done|done|]. apply Hsame; [done|done|].
    rewrite Z.gtb_ltb in Hcmp. apply Z.ltb_ge in Hcmp. lia.
Qed.

Lemma splitToPackets_invariant (P : Packet -> Prop)
    (Q : IteratedElement -> Prop) (listID counterNo : Z) raw elements :
  (forall p x, Q x -> P p ->
     payloadLength (header p) + elementByteLength x <= 256 ->
     P (withElement p (elementByteLength x) (elementBytes raw x))) ->
  (forall i x, Q x ->
     P (withElement (withSubIndex (getEmptyPacket listID counterNo) i)
          (elementByteLength x) (elementBytes raw x))) ->
  P (getEmptyPacket listID counterNo) ->
  Forall Q elements ->
  Forall P (splitToPackets listID counterNo raw elements).
Proof.
  intros Hsame Hnew Hempty HQ. rewrite splitToPackets_unfold.
  destruct (foldl_addElement_invariant P Q listID counterNo raw Hsame Hnew
              elements [] (getEmptyPacket listID counterNo) HQ)
    as [Hps Hp]; [constructor|done|].
  apply Forall_app. split; [done|]. by constructor.
Qed.

(** Under a tiling every element has the bytes that its length says. *)
Lemma tiling_elementBytes raw elements :
  forall pos,
    0 <= pos ->
    tiling pos elements (Buffer_byteLength raw) ->
    Forall (fun x => Buffer_byteLength (elementBytes raw x)
                     = elementByteLength x /\ 0 <= elementByteLength x)
      elements.
Proof.
  induction elements as [|x elements IH]; intros pos Hpos; cbn;
    [constructor|].
  intros (Hs & Hn & Ht). pose proof (tiling_le _ _ _ Ht) as Hle.
  constructor; [|apply (IH (pos + elementByteLength x)); [lia|done]].
  split; [|done].
  rewrite elementBytes_tile by lia.
  unfold Buffer_byteLength in *. rewrite length_take, length_drop. lia.
Qed.

(** The variable counts add up to the number of the elements. *)
Lemma variableTotal_app (ps qs : list Packet) :
  variableTotal (ps ++ qs) = variableTotal ps + variableTotal qs.
Proof.
  unfold variableTotal. induction ps as [|p ps IH]; cbn; [done|].
  rewrite IH. lia.
Qed.

Lemma foldl_addElement_variableTotal (listID counterNo : Z) raw elements :
  forall (packets : list Packet) packet,
    variableTotal
      (fst (foldl (addElement listID counterNo raw)
              (packets, packet) elements)
       ++ [snd (foldl (addElement listID counterNo raw)
                  (packets, packet) elements)])
    = variableTotal (packets ++ [packet]) + Z.of_nat (length elements).
Proof.
  induction elements as [|x elements IH]; intros packets packet.
  - cbn [foldl fst snd length]. lia.
  - cbn [foldl]. rewrite addElement_cases.
    destruct (_ >? _); rewrite IH, !variableTotal_app; cbn; lia.
Qed.

(** X11: under a tiling, the header of every packet describes its
    payload ([payloadLength] is the payload's length, [packetLength] is
    twenty more), the datagram that [send] hands to the socket has
    [packetLength] bytes, and the variable counts of the packets add up to
    the number of the elements. *)
Theorem packet_headers_describe_payloads
    (listID counterNo : Z) raw elements :
  tiling 0 elements (Buffer_byteLength raw) ->
  Forall lengths_agree (splitToPackets listID counterNo raw elements) /\
  variableTotal (splitToPackets listID counterNo raw elements)
    = Z.of_nat (length elements) /\
  (forall p q,
     p ∈ splitToPackets listID counterNo raw elements ->
     withRawData p = Normal q ->
     Buffer_byteLength (pktRawData q) = packetLength (header q) /\
     lengths_agree q).
Proof.
  intros Htile.
  assert (Forall lengths_agree
            (splitToPackets listID counterNo raw elements)) as Hall.
  { apply (splitToPackets_invariant lengths_agree
             (fun x => Buffer_byteLength (elementBytes raw x)
                       = elementByteLength x /\ 0 <= elementByteLength x)).
    - intros p x [Hx _] [Hp1 Hp2] _. split.
      + rewrite payload_withElement.
        cbn [withElement header payloadLength].
        unfold Buffer_byteLength in *. rewrite length_app. lia.
      + cbn [withElement header payloadLength packetLength]. lia.
    - intros i x [Hx _]. split.
      + rewrite payload_withElement.
        cbn [withElement withSubIndex getEmptyPacket header payload
             rawData payloadLength].
        change (Buffer_alloc 0) with (@nil byte). cbn [app]. lia.
      + cbn [withElement withSubIndex getEmptyPacket header payloadLength
             packetLength]. lia.
    - done.
    - by apply (tiling_elementBytes raw elements 0). }
  split; [exact Hall|]. split.
  - rewrite splitToPackets_unfold, foldl_addElement_variableTotal. cbn. lia.
  - intros p q Hin Hq.
    rewrite Forall_forall in Hall. destruct (Hall p Hin) as [Hp1 Hp2].
    unfold withRawData in Hq.
    apply bind_Normal in Hq as (hdr & Hhdr & Hq). cbn in Hq.
    injection Hq as <-.
    apply createPacketHeader_Normal in Hhdr as (Hlen & _).
    split; [|done]. cbn. unfold Buffer_byteLength in *.
    rewrite app_nil_r, length_app, Hlen. lia.
Qed.

(** X12: a packet carries more than 256 bytes of payload only when it
    carries one single field; when no field is longer than 256 bytes, no
    payload is, and no datagram is longer than 276 bytes. *)
Theorem only_single_fields_exceed_256
    (listID counterNo : Z) raw elements :
  Forall (fun x => 0 <= elementByteLength x) elements ->
  Forall (fun p => 0 <= payloadLength (header p) /\
                   (payloadLength (header p) <= 256 \/
                    variableCount (header p) = 1))
    (splitToPackets listID counterNo raw elements) /\
  (Forall (fun x => elementByteLength x <= 256) elements ->
   Forall (fun p => 0 <= payloadLength (header p) <= 256 /\
                    packetLength (header p) <= 276)
     (splitToPackets listID counterNo raw elements)).
Proof.
  intros Hpos. split.
  - apply (splitToPackets_invariant _ (fun x => 0 <= elementByteLength x));
      [| | |done].
    + intros p x Hx [Hp _] Hfit. cbn. split; [lia|]. left. lia.
    + intros i x Hx. cbn. split; [lia|]. by right.
    + cbn. split; [lia|]. left. lia.
  - intros Hsmall.
    assert (Forall (fun x => 0 <= elementByteLength x <= 256) elements)
      as Hboth.
    { rewrite Forall_forall in Hpos, Hsmall. rewrite Forall_forall.
      intros x Hin. split; [by apply Hpos|by apply Hsmall]. }
    eapply Forall_impl.
    + apply (splitToPackets_invariant
               (fun p => 0 <= payloadLength (header p) <= 256 /\
                         packetLength (header p)
                         = 20 + payloadLength (header p))
               (fun x => 0 <= elementByteLength x <= 256));
        [| | |exact Hboth].
      * intros p x Hx (Hp & Hp2) Hfit. cbn. lia.
      * intros i x Hx. cbn. lia.
      * cbn. lia.
    + cbn. intros p. lia.
Qed.

(** *** [send] returns *)

Lemma foldl_addElement_length (listID counterNo : Z) raw elements :
  forall (packets : list Packet) packet,
    (length (fst (foldl (addElement listID counterNo raw)
                    (packets, packet) elements))
     <= length packets + length elements)%nat.
Proof.
  induction elements as [|x elements IH]; intros packets packet.
  - cbn. lia.
  - cbn [foldl]. rewrite addElement_cases.
    destruct (_ >? _).
    + etransitivity; [apply IH|]. rewrite length_app. cbn. lia.
    + etransitivity; [apply IH|]. cbn. lia.
Qed.

Lemma variableCount_le_total (ps : list Packet) p :
  Forall (fun q => 0 <= variableCount (header q)) ps ->
  p ∈ ps ->
  variableCount (header p) <= variableTotal ps /\ 0 <= variableTotal ps.
Proof.
  unfold variableTotal.
  induction 1 as [|q ps Hq Hps IH]; intros Hin.
  - by apply elem_of_nil in Hin.
  - cbn. apply elem_of_cons in Hin as [->|Hin].
    + assert (0 <= foldr (fun p n => variableCount (header p) + n) 0 ps).
      { clear IH. induction Hps as [|q' ps' Hq' _ IH']; cbn; lia. }
      lia.
    + destruct (IH Hin). lia.
Qed.

Lemma withRawData_in_range p :
  header_in_range (header p) -> exists q, withRawData p = Normal q.
Proof.
  intros Hrange.
  destruct (createPacketHeader_ok p Hrange) as (b0 & b1 & b2 & b3 & _ & Hok).
  unfold withRawData. rewrite Hok. cbn. eauto.
Qed.

Lemma mapM_withRawData_in_range (l : list Packet) :
  Forall (fun p => header_in_range (header p)) l ->
  exists ps, mapM withRawData l = Normal ps /\ length ps = length l.
Proof.
  induction 1 as [|p l Hp _ [ps [IH Hlen]]].
  - by exists [].
  - destruct (withRawData_in_range p Hp) as [q Hq].
    exists (q :: ps). cbn [mapM]. rewrite Hq. cbn. rewrite IH. cbn.
    by rewrite Hlen.
Qed.

(** The headers of the packets are in range when the list ID and the
    counter are, no field is longer than 256 bytes and there are at most
    65535 fields. *)
Lemma splitToPackets_in_range (listID counterNo : Z) raw elements :
  0 <= listID <= 65535 ->
  0 <= counterNo <= 65535 ->
  Forall (fun x => 0 <= elementByteLength x <= 256) elements ->
  Z.of_nat (length elements) <= 65535 ->
  Forall (fun p => header_in_range (header p))
    (splitToPackets listID counterNo raw elements).
Proof.
  intros Hid Hcnt Hsmall Hcount.
  pose proof (splitToPackets_invariant
    (fun p => type (header p) = 0 /\ index (header p) = listID /\
              counter (header p) = counterNo /\
              flags (header p) = 0 /\ checksum (header p) = 0 /\
              0 <= variableCount (header p) /\
              0 <= payloadLength (header p) <= 256 /\
              packetLength (header p) = 20 + payloadLength (header p))
    (fun x => 0 <= elementByteLength x <= 256)
    listID counterNo raw elements) as Hinv.
  assert (Forall
    (fun p => type (header p) = 0 /\ index (header p) = listID /\
              counter (header p) = counterNo /\
              flags (header p) = 0 /\ checksum (header p) = 0 /\
              0 <= variableCount (header p) /\
              0 <= payloadLength (header p) <= 256 /\
              packetLength (header p) = 20 + payloadLength (header p))
    (splitToPackets listID counterNo raw elements)) as Hall.
  { apply Hinv; [| | |done].
    - intros p x Hx (? & ? & ? & ? & ? & ? & ? & ?) Hfit. cbn.
      repeat split; try done; lia.
    - intros i x Hx. cbn. repeat split; try done; lia.
    - cbn. repeat split; try done; lia. }
  clear Hinv.
  assert (variableTotal (splitToPackets listID counterNo raw elements)
          = Z.of_nat (length elements)) as Htotal.
  { rewrite splitToPackets_unfold, foldl_addElement_variableTotal.
    cbn. lia. }
  assert (subIndexes (splitToPackets listID counterNo raw elements)
          = seqZ 0 (Z.of_nat
                      (length (splitToPackets listID counterNo raw
                                 elements)))) as Hsub.
  { rewrite splitToPackets_unfold.
    by apply foldl_addElement_subIndexes. }
  assert (length (splitToPackets listID counterNo raw elements)
          <= S (length elements))%nat as Hlen.
  { rewrite splitToPackets_unfold, length_app. cbn [length].
    pose proof (foldl_addElement_length listID counterNo raw elements
                  [] (getEmptyPacket listID counterNo)) as Hl.
    cbn [length] in Hl. lia. }
  assert (Forall (fun q => 0 <= variableCount (header q))
            (splitToPackets listID counterNo raw elements)) as Hvc.
  { eapply Forall_impl; [exact Hall|]. cbn. by intros p (_&_&_&_&_&?&_). }
  rewrite Forall_forall. intros p Hin.
  rewrite Forall_forall in Hall.
  destruct (Hall p Hin) as (Ht & Hi & Hc & Hf & Hk & Hv & Hp & Hpl).
  destruct (variableCount_le_total _ p Hvc Hin) as [Hle _].
  assert (subIndex (header p)
          ∈ subIndexes (splitToPackets listID counterNo raw elements))
    as Hmem.
  { unfold subIndexes. apply list_elem_of_In.
    apply (in_map (fun q => subIndex (header q))).
    by apply list_elem_of_In. }
  rewrite Hsub in Hmem. apply elem_of_seqZ in Hmem.
  unfold header_in_range. rewrite Ht, Hi, Hc, Hf, Hk. lia.
Qed.

(** X13: [send] throws nothing and hands one datagram per packet to the
    socket when the list ID fits sixteen bits, no field is longer than 256
    bytes and the schema has at most 65535 fields; the sender's counter
    must not be negative, which it never is after [new Sender()]. *)
Theorem send_returns_packets
    (listID : Z) (dataType : IecType Value) (data : Value) s :
  0 <= listID <= 65535 ->
  0 <= counterNumber s ->
  Forall (fun x => 0 <= elementByteLength x <= 256)
    (elementIterator dataType) ->
  Z.of_nat (length (elementIterator dataType)) <= 65535 ->
  exists ps,
    send listID dataType data s = (Normal ps, snd (nextCounter s)) /\
    length ps
    = length (splitToPackets listID (fst (nextCounter s))
                (convertToBuffer dataType data) (elementIterator dataType))
    /\
    0 <= counterNumber (snd (nextCounter s)).
Proof.
  intros Hid Hcnt Hsmall Hcount.
  assert (0 <= fst (nextCounter s) <= 65535) as Hc.
  { unfold nextCounter. cbn [fst].
    destruct (counterNumber s >=? 65535) eqn:Hge; [lia|].
    rewrite Z.geb_leb in Hge. apply Z.leb_gt in Hge. lia. }
  destruct (mapM_withRawData_in_range
              (splitToPackets listID (fst (nextCounter s))
                 (convertToBuffer dataType data) (elementIterator dataType)))
    as (ps & Hps & Hlen).
  { by apply splitToPackets_in_range. }
  exists ps. rewrite send_counter, Hps. split; [done|]. split; [done|].
  unfold nextCounter in *. cbn [fst snd counterNumber] in *. lia.
Qed.

End SendMore.

(** *** Examples of the further properties of the send path *)

Lemma packet_headers_describe_payloads_witness :
  tiling 0 fieldsOf300 (Buffer_byteLength message300) /\
  Forall lengths_agree (splitToPackets 50 7 message300 fieldsOf300) /\
  variableTotal (splitToPackets 50 7 message300 fieldsOf300) = 2.
Proof.
  assert (tiling 0 fieldsOf300 (Buffer_byteLength message300)) as Htile
    by (cbn; repeat split; lia).
  split; [exact Htile|].
  destruct (packet_headers_describe_payloads
              50 7 message300 fieldsOf300 Htile) as (Hall & Htotal & _).
  split; [exact Hall|exact Htotal].
Defined.

Lemma only_single_fields_exceed_256_witness :
  Forall (fun x => 0 <= elementByteLength x) fieldsOf300 /\
  Forall (fun x => elementByteLength x <= 256) fieldsOf300 /\
  Forall (fun p => 0 <= payloadLength (header p) <= 256 /\
                   packetLength (header p) <= 276)
    (splitToPackets 50 7 message300 fieldsOf300).
Proof.
  assert (Forall (fun x => 0 <= elementByteLength x) fieldsOf300) as Hpos
    by (repeat constructor; cbn; lia).
  assert (Forall (fun x => elementByteLength x <= 256) fieldsOf300)
    as Hsmall by (repeat constructor; cbn; lia).
  split; [exact Hpos|]. split; [exact Hsmall|].
  exact (proj2 (only_single_fields_exceed_256
                  50 7 message300 fieldsOf300 Hpos) Hsmall).
Defined.

Lemma send_returns_packets_witness :
  exists ps,
    send 50 (rawType 300 fieldsOf300) message300 newSender
      = (Normal ps, snd (nextCounter newSender)) /\
    length ps = 2%nat.
Proof.
  destruct (send_returns_packets 50 (rawType 300 fieldsOf300) message300
              newSender)
    as (ps & Hsend & Hlen & _).
  - lia.
  - cbn. lia.
  - repeat constructor; cbn; lia.
  - cbn. lia.
  - exists ps. split; [exact Hsend|]. rewrite Hlen. reflexivity.
Defined.

(** * From the sender to the receiver *)

Section EndToEnd.

Context {Value : Type}.
Implicit Types (r : Receiver Value) (log : list (Event Value)).
Implicit Types (e : PacketBufferEntry) (p q packet : Packet).

(** *** The receiver takes a message fragment by fragment *)







(** *** What the sender puts on the wire is what the receiver parses *)




(** *** The packets of the packetizer as the receiver needs them *)





End EndToEnd.

